(** * Sudoku session (src/App.js): generator, puzzle deriver, undo/redo log

    A shallow embedding of the functions of [src/App.js] and the proofs of
    the properties its specification states about them.

    - JavaScript values that occur in a grid are [cell]s: [null], a number,
      [undefined] (what an out-of-range read gives) or a hole (what a write
      past the end of an array leaves behind).
    - A call either returns, throws a [TypeError] (reading a property of
      [undefined]) or, for the two loops that are not structurally bounded,
      runs out of fuel: [outcome].
    - [Math.random] is a state that is threaded through the calls
      ([RandomSource]). *)

From Stdlib Require Import ZArith Lia ZifyNat.
From stdpp Require Import base tactics option list numbers.

Local Open Scope nat_scope.

(** [x > y] on [nat] is decided as [y < x]. *)
#[global] Instance nat_gt_dec : RelDecision gt := λ x y, decide (y < x).

(** [lia] with division and remainder by constants. *)
Ltac lia_div := zify; Z.to_euclidean_division_equations; lia.

(** ** Outcomes of a call *)

Inductive outcome (A : Type) : Type :=
  | Ret (a : A)      (* normal completion *)
  | TypeError        (* "Cannot read properties of undefined" *)
  | OutOfFuel.       (* the loop/recursion did not finish within the fuel *)
Arguments Ret {A} a.
Arguments TypeError {A}.
Arguments OutOfFuel {A}.

#[global] Instance outcome_ret : MRet outcome := λ A a, Ret a.
#[global] Instance outcome_bind : MBind outcome := λ A B f m,
  match m with
  | Ret a => f a
  | TypeError => TypeError
  | OutOfFuel => OutOfFuel
  end.

(** ** Cells, rows and grids *)

Inductive cell : Type :=
  | Hole             (* an index of a sparse array that was never written *)
  | Undefined
  | Null
  | Num (n : Z).

#[global] Instance cell_eq_dec : EqDecision cell.
Proof. solve_decision. Defined.

Abbreviation Row := (list cell).
Abbreviation Grid := (list (list cell)).

(** [v === null] and [v === num] *)
Definition is_null (v : cell) : bool :=
  match v with Null => true | _ => false end.

Definition is_num (v : cell) (num : Z) : bool :=
  match v with Num n => bool_decide (n = num) | _ => false end.

(** [arr[i]]: a hole and an index past the end both read as [undefined]. *)
Definition arr_get (arr : Row) (i : nat) : cell :=
  match arr !! i with
  | Some Hole | None => Undefined
  | Some v => v
  end.

(** [grid[row][col]]: reading a row that does not exist gives [undefined],
    and indexing that throws. *)
Definition getCell (grid : Grid) (row col : nat) : outcome cell :=
  match grid !! row with
  | None => TypeError
  | Some r => Ret (arr_get r col)
  end.

(** [arr[i] = v]: inside the array the element is replaced; past the end
    the array grows and the skipped positions are holes. *)
Definition arr_set (arr : Row) (i : nat) (v : cell) : Row :=
  if decide (i < length arr) then <[i:=v]> arr
  else arr ++ replicate (i - length arr) Hole ++ [v].

(** [[...arr]]: a copy in which the holes have become [undefined]. *)
Definition spread (arr : Row) : Row :=
  (λ c, match c with Hole => Undefined | _ => c end) <$> arr.

(** [grid[row][col] = v] *)
Definition setCell (grid : Grid) (row col : nat) (v : cell) : outcome Grid :=
  match grid !! row with
  | None => TypeError
  | Some r => Ret (<[row := arr_set r col v]> grid)
  end.

(** [for (const i of idxs) { body }] where the body may [return a] from the
    enclosing function ([Some a]) or fall through to the next round
    ([None]). *)
Fixpoint forEarly {A} (idxs : list nat) (body : nat → outcome (option A))
    : outcome (option A) :=
  match idxs with
  | [] => Ret None
  | i :: idxs' =>
      r ← body i;
      match r with
      | Some a => Ret (Some a)
      | None => forEarly idxs' body
      end
  end.

(** ** Constraint checker: [isValidPlacement] (App.js 6-19) *)

Definition isValidPlacement (grid : Grid) (row col : nat) (num : Z)
    : outcome bool :=
  r ← forEarly (seq 0 9) (λ i,
         a ← getCell grid row i;
         if is_num a num then Ret (Some false)
         else
           b ← getCell grid i col;
           if is_num b num then Ret (Some false) else Ret None);
  match r with
  | Some b => Ret b
  | None =>
      let startRow := row / 3 * 3 in
      let startCol := col / 3 * 3 in
      r ← forEarly (seq 0 3) (λ i,
             forEarly (seq 0 3) (λ j,
               c ← getCell grid (startRow + i) (startCol + j);
               if is_num c num then Ret (Some false) else Ret None));
      match r with
      | Some b => Ret b
      | None => Ret true
      end
  end.

(** ** The random source

    [random9] is [Math.floor(Math.random() * 9)];
    [shuffle] is [arr.sort(() => Math.random() - 0.5)]. Both consume the
    state of the generator. *)

Class RandomSource (R : Type) := {
  random9 : R → nat * R;
  shuffle : R → list Z → list Z * R;
}.

(** What the code relies on: [Math.floor(Math.random() * 9)] is one of
    0..8, and sorting rearranges the array. *)
Definition random9_in_range `{RandomSource R} : Prop :=
  ∀ r : R, (random9 r).1 < 9.

Definition shuffle_permutes `{RandomSource R} : Prop :=
  ∀ (r : R) (l : list Z), (shuffle r l).1 ≡ₚ l.

(** ** Grid generator: [generateSudokuGrid] (App.js 22-48) *)

(** [Array(9).fill(null).map(() => Array(9).fill(null))] *)
Definition emptyGrid : Grid := replicate 9 (replicate 9 Null).

(** [[...Array(9).keys()].map((x) => x + 1)] *)
Definition oneToNine : list Z := (λ x, Z.of_nat x + 1)%Z <$> seq 0 9.

Section generator.
Context `{RandomSource R}.

Abbreviation fill_result := (outcome (bool * Grid * R)).

(** The loop [for (const num of numbers)] of [fillGrid], with the
    recursive call passed in as [rec]. The grid is the closure's shared
    array: each call receives it and hands it back as it left it. *)
Fixpoint tryNumbers (rec : Grid → R → fill_result) (row col : nat)
    (numbers : list Z) (grid : Grid) (rng : R) : fill_result :=
  match numbers with
  | [] => Ret (false, grid, rng)
  | num :: rest =>
      ok ← isValidPlacement grid row col num;
      if ok : bool then
        g1 ← setCell grid row col (Num num);
        '(filled, g2, rng2) ← rec g1 rng;
        if filled : bool then Ret (true, g2, rng2)
        else
          g3 ← setCell g2 row col Null;
          tryNumbers rec row col rest g3 rng2
      else tryNumbers rec row col rest grid rng
  end.

(** The two [for] loops of [fillGrid] run until the first [null] cell;
    the body then always returns, so they are a search for that cell. *)
Definition firstNull (grid : Grid) : outcome (option (nat * nat)) :=
  forEarly (seq 0 9) (λ row,
    forEarly (seq 0 9) (λ col,
      c ← getCell grid row col;
      if is_null c then Ret (Some (row, col)) else Ret None)).

(** [fuel] bounds the depth of the recursion. *)
Fixpoint fillGrid (fuel : nat) (grid : Grid) (rng : R) : fill_result :=
  match fuel with
  | 0 => OutOfFuel
  | S fuel' =>
      pos ← firstNull grid;
      match pos with
      | None => Ret (true, grid, rng)
      | Some (row, col) =>
          let '(numbers, rng1) := shuffle rng oneToNine in
          tryNumbers (fillGrid fuel') row col numbers grid rng1
      end
  end.

Definition generateSudokuGrid (fuel : nat) (rng : R) : outcome (Grid * R) :=
  '(_, grid, rng') ← fillGrid fuel emptyGrid rng;
  Ret (grid, rng').
End generator.

(** ** Puzzle deriver: [createPuzzle] (App.js 51-66) *)

Section deriver.
Context `{RandomSource R}.

(** The [while (attempts > 0)] loop; [fuel] bounds the number of rounds. *)
Fixpoint removeLoop (fuel : nat) (puzzle : Grid) (attempts : Z) (rng : R)
    : outcome (Grid * R) :=
  if decide (attempts > 0)%Z then
    match fuel with
    | 0 => OutOfFuel
    | S fuel' =>
        let '(row, rng1) := random9 rng in
        let '(col, rng2) := random9 rng1 in
        c ← getCell puzzle row col;
        if is_null c then removeLoop fuel' puzzle attempts rng2
        else
          puzzle' ← setCell puzzle row col Null;
          removeLoop fuel' puzzle' (attempts - 1)%Z rng2
    end
  else Ret (puzzle, rng).

(** [difficulty] defaults to 30 in the source; every call passes 40. *)
Definition createPuzzle (fuel : nat) (grid : Grid) (difficulty : Z) (rng : R)
    : outcome (Grid * R) :=
  let puzzle := spread <$> grid in
  removeLoop fuel puzzle difficulty rng.
End deriver.

(** ** The session: the component state of [App] (App.js 68-175) *)

(** Indices that come from the user interface are integers. *)
Definition getCellZ (grid : Grid) (row col : Z) : outcome cell :=
  if decide (0 ≤ row)%Z then
    match grid !! Z.to_nat row with
    | None => TypeError
    | Some r =>
        Ret (if decide (0 ≤ col)%Z then arr_get r (Z.to_nat col) else Undefined)
    end
  else TypeError.

(** [grid[row][col] = v]; a negative [col] names a property of the row
    object and leaves its elements as they are. *)
Definition setCellZ (grid : Grid) (row col : Z) (v : cell) : outcome Grid :=
  if decide (0 ≤ row)%Z then
    match grid !! Z.to_nat row with
    | None => TypeError
    | Some r =>
        Ret (<[Z.to_nat row :=
                 if decide (0 ≤ col)%Z then arr_set r (Z.to_nat col) v else r]>
               grid)
    end
  else TypeError.

(** [arr.map((x, i) => f(i, x))] for a callback that may throw. *)
Fixpoint mapIndexed {A B} (f : nat → A → outcome B) (i : nat) (l : list A)
    : outcome (list B) :=
  match l with
  | [] => Ret []
  | x :: l' =>
      y ← f i x;
      ys ← mapIndexed f (S i) l';
      Ret (y :: ys)
  end.

(** [puzzle] is [None] when the state holds [undefined], which is what
    [history[i]] gives for an index outside the log. *)
Record Session : Type := {
  solution : Grid;
  originalPuzzle : Grid;
  puzzle : option Grid;
  history : list Grid;
  historyIndex : nat;
  selectedCell : option (Z * Z);
}.

(** The [useState] initialisers, given the two generated grids. *)
Definition newSession (sol orig : Grid) : Session := {|
  solution := sol;
  originalPuzzle := orig;
  puzzle := Some (spread <$> orig);
  history := [orig];
  historyIndex := 0;
  selectedCell := None;
|}.

Definition handleCellClick (row col : Z) (s : Session) : outcome Session :=
  c ← getCellZ (originalPuzzle s) row col;
  if is_null c then
    Ret {| solution := solution s; originalPuzzle := originalPuzzle s;
           puzzle := puzzle s; history := history s;
           historyIndex := historyIndex s;
           selectedCell := Some (row, col) |}
  else Ret s.

(** With no selection the handler only raises an alert. *)
Definition handleNumberClick (num : Z) (s : Session) : outcome Session :=
  match selectedCell s with
  | None => Ret s
  | Some (row, col) =>
      c ← getCellZ (originalPuzzle s) row col;
      if is_null c then
        match puzzle s with
        | None => TypeError
        | Some p =>
            newPuzzle ← setCellZ ((λ r : Row, r) <$> p) row col (Num num);
            let newHistory :=
              take (historyIndex s + 1) (history s) ++ [newPuzzle] in
            Ret {| solution := solution s; originalPuzzle := originalPuzzle s;
                   puzzle := Some newPuzzle; history := newHistory;
                   historyIndex := length newHistory - 1;
                   selectedCell := None |}
        end
      else Ret s
  end.

Definition undo (s : Session) : Session :=
  if decide (historyIndex s > 0) then
    {| solution := solution s; originalPuzzle := originalPuzzle s;
       puzzle := history s !! (historyIndex s - 1); history := history s;
       historyIndex := historyIndex s - 1;
       selectedCell := selectedCell s |}
  else s.

Definition redo (s : Session) : Session :=
  if decide (historyIndex s < length (history s) - 1) then
    {| solution := solution s; originalPuzzle := originalPuzzle s;
       puzzle := history s !! (historyIndex s + 1); history := history s;
       historyIndex := historyIndex s + 1;
       selectedCell := selectedCell s |}
  else s.

(** [Array.prototype.map] does not call back on a hole and leaves it. *)
Definition clearUserInputs (s : Session) : outcome Session :=
  match puzzle s with
  | None => TypeError
  | Some p =>
      clearedPuzzle ← mapIndexed (λ rowIndex row,
          mapIndexed (λ colIndex c,
            match c with
            | Hole => Ret Hole
            | _ =>
                o ← getCell (originalPuzzle s) rowIndex colIndex;
                Ret (if is_null o then Null else c)
            end) 0 row) 0 p;
      Ret {| solution := solution s; originalPuzzle := originalPuzzle s;
             puzzle := Some clearedPuzzle; history := [clearedPuzzle];
             historyIndex := 0; selectedCell := selectedCell s |}
  end.

Section random_operations.
Context `{RandomSource R}.

(** The first render of [App]. Later renders evaluate the initialisers
    again and drop the results: they only advance the random source. *)
Definition startSession (fuel : nat) (rng : R) : outcome (Session * R) :=
  '(sol, rng1) ← generateSudokuGrid fuel rng;
  '(orig, rng2) ← createPuzzle fuel sol 40 rng1;
  Ret (newSession sol orig, rng2).

Definition reset (fuel : nat) (s : Session) (rng : R)
    : outcome (Session * R) :=
  '(p1, rng1) ← createPuzzle fuel (solution s) 40 rng;
  '(p2, rng2) ← createPuzzle fuel (solution s) 40 rng1;
  Ret ({| solution := solution s; originalPuzzle := originalPuzzle s;
          puzzle := Some p1; history := [p2]; historyIndex := 0;
          selectedCell := selectedCell s |}, rng2).

(** The handler of the "Generate New Puzzle" button (App.js 204-213). *)
Definition regenerate (fuel : nat) (s : Session) (rng : R)
    : outcome (Session * R) :=
  '(newSolution, rng1) ← generateSudokuGrid fuel rng;
  '(newOriginalPuzzle, rng2) ← createPuzzle fuel newSolution 40 rng1;
  Ret ({| solution := newSolution; originalPuzzle := newOriginalPuzzle;
          puzzle := Some (spread <$> newOriginalPuzzle);
          history := [newOriginalPuzzle]; historyIndex := 0;
          selectedCell := selectedCell s |}, rng2).
End random_operations.

(** ** A concrete random source, for running the code

    The state is a round counter and a flag that says whether the row of
    the round has been drawn. Round [k] draws the row and the column of
    cell number [k mod 81] in row-major order; the shuffle rotates its
    argument by the counter. *)
Definition rotate {A} (n : nat) (l : list A) : list A :=
  drop (n `mod` length l) l ++ take (n `mod` length l) l.

#[global] Instance counter_source : RandomSource (nat * bool) := {|
  random9 '(k, rowDrawn) :=
    if rowDrawn : bool then (k `mod` 9, (S k, false))
    else ((k / 9) `mod` 9, (k, true));
  shuffle '(k, rowDrawn) l := (rotate k l, (S k, rowDrawn));
|}.

Definition counter0 : nat * bool := (0, false).

(** ** Specification vocabulary *)

(** What [grid[row][col]] reads, as a total function. *)
Definition cellAt (g : Grid) (row col : nat) : cell :=
  match g !! row with
  | Some r => arr_get r col
  | None => Undefined
  end.

(** Nine rows of nine cells. *)
Definition grid9 (g : Grid) : Prop :=
  length g = 9 ∧ Forall (λ r : Row, length r = 9) g.

(** The cells 1..9. *)
Definition digits : list cell := Num <$> oneToNine.

Definition rowCells (g : Grid) (row : nat) : list cell :=
  (λ col, cellAt g row col) <$> seq 0 9.

Definition colCells (g : Grid) (col : nat) : list cell :=
  (λ row, cellAt g row col) <$> seq 0 9.

(** Box [b] (0..8, row-major) starts at row [b / 3 * 3], column
    [b mod 3 * 3]. *)
Definition boxCells (g : Grid) (b : nat) : list cell :=
  (λ k, cellAt g (b / 3 * 3 + k / 3) (b `mod` 3 * 3 + k `mod` 3)) <$> seq 0 9.

(** The full-grid invariant of the specification. *)
Definition solvedGrid (g : Grid) : Prop :=
  grid9 g ∧
  (∀ row col, row < 9 → col < 9 →
     ∃ n, g !! row ≫= (.!! col) = Some (Num n) ∧ (1 ≤ n ≤ 9)%Z) ∧
  (∀ k, k < 9 →
     rowCells g k ≡ₚ digits ∧ colCells g k ≡ₚ digits ∧ boxCells g k ≡ₚ digits).

(** Two positions share a row, a column or a box. *)
Definition sees (r c r' c' : nat) : Prop :=
  r = r' ∨ c = c' ∨ (r / 3 = r' / 3 ∧ c / 3 = c' / 3).

(** No number occurs twice in a row, a column or a box. *)
Definition noClash (g : Grid) : Prop :=
  ∀ r c r' c' n, r < 9 → c < 9 → r' < 9 → c' < 9 →
    cellAt g r c = Num n → cellAt g r' c' = Num n → sees r c r' c' →
    r = r' ∧ c = c'.

(** Every cell is empty or one of 1..9. *)
Definition cellsOk (g : Grid) : Prop :=
  ∀ r c, r < 9 → c < 9 →
    cellAt g r c = Null ∨ ∃ n, cellAt g r c = Num n ∧ (1 ≤ n ≤ 9)%Z.

Definition fullGrid (g : Grid) : Prop :=
  ∀ r c, r < 9 → c < 9 → ∃ n, cellAt g r c = Num n ∧ (1 ≤ n ≤ 9)%Z.

(** [s] has every number that [g] has. *)
Definition extends (g s : Grid) : Prop :=
  ∀ r c n, r < 9 → c < 9 → cellAt g r c = Num n → cellAt s r c = Num n.

Definition positions : list (nat * nat) :=
  r ← seq 0 9; c ← seq 0 9; [(r, c)].

(** The number of empty cells of a 9x9 grid. *)
Definition nulls (g : Grid) : nat :=
  length (filter (λ p, cellAt g p.1 p.2 = Null) positions).

(** What a call of [fillGrid] on [g] leaves behind: on success a full grid
    without clashes; on failure the grid as it was, and then [g] has no
    completion at all. *)
Definition fillPost {R} (g : Grid) (res : bool * Grid * R) : Prop :=
  let '(filled, g', _) := res in
  grid9 g' ∧
  if filled then fullGrid g' ∧ noClash g'
  else g' = g ∧ ∀ s, fullGrid s → noClash s → extends g s → False.

(** Decidable forms of [fullGrid] and [noClash], to check a given grid. *)
Definition isDigit (v : cell) : bool :=
  match v with
  | Num n => bool_decide (1 ≤ n ≤ 9)%Z
  | _ => false
  end.

Definition fullGridCheck (g : Grid) : Prop :=
  Forall (λ p : nat * nat, isDigit (cellAt g p.1 p.2)) positions.

Definition noClashCheck (g : Grid) : Prop :=
  Forall (λ p : nat * nat, Forall (λ q : nat * nat,
    sees p.1 p.2 q.1 q.2 → cellAt g p.1 p.2 = cellAt g q.1 q.2 →
    cellAt g p.1 p.2 = Null ∨ p = q) positions) positions.

#[global] Instance sees_dec r c r' c' : Decision (sees r c r' c').
Proof. unfold sees. tc_solve. Defined.

#[global] Instance fullGridCheck_dec g : Decision (fullGridCheck g).
Proof. unfold fullGridCheck. tc_solve. Defined.

#[global] Instance noClashCheck_dec g : Decision (noClashCheck g).
Proof. unfold noClashCheck. tc_solve. Defined.

(** A solved grid, to know that there is one. *)
Definition sampleSolution : Grid :=
  (λ r, (λ c, Num (Z.of_nat ((r * 3 + r / 3 + c) `mod` 9) + 1)) <$> seq 0 9)
    <$> seq 0 9.

(** The number of cells of a 9x9 grid that are not empty. *)
Definition nonNulls (g : Grid) : nat :=
  length (filter (λ p, cellAt g p.1 p.2 ≠ Null) positions).

Section draws.
Context `{RandomSource R}.

(** The two draws of one round of the removal loop. *)
Definition drawCell (rng : R) : nat * nat * R :=
  let '(row, rng1) := random9 rng in
  let '(col, rng2) := random9 rng1 in
  (row, col, rng2).

(** The state of the source after [n] rounds. *)
Fixpoint afterDraws (n : nat) (rng : R) : R :=
  match n with
  | 0 => rng
  | S n' => afterDraws n' (drawCell rng).2
  end.

(** From [rng] on, every cell keeps being drawn: after any number of
    rounds there is a later round that draws it. A uniform independent
    source has this property with probability 1. *)
Definition fairFrom (rng : R) : Prop :=
  ∀ n row col, row < 9 → col < 9 →
    ∃ m, (drawCell (afterDraws (n + m) rng)).1 = (row, col).
End draws.

(** ** Sessions *)

(** The operations of the session that draw nothing at random. *)
Inductive event : Type :=
  | SelectCell (row col : Z)
  | EnterValue (num : Z)
  | Undo
  | Redo
  | ClearUserInputs.

(** Every handler reads the grids before it calls its first state setter,
    so a handler that throws leaves the state of the component as it was. *)
Definition settle (s : Session) (o : outcome Session) : Session :=
  match o with
  | Ret s' => s'
  | _ => s
  end.

Definition perform (s : Session) (e : event) : Session :=
  match e with
  | SelectCell row col => settle s (handleCellClick row col s)
  | EnterValue num => settle s (handleNumberClick num s)
  | Undo => undo s
  | Redo => redo s
  | ClearUserInputs => settle s (clearUserInputs s)
  end.

Definition performAll (s : Session) (events : list event) : Session :=
  foldl perform s events.

(** The log is not empty, the cursor is an index of it, and the snapshot
    under the cursor is the current puzzle. *)
Definition historyInvariant (s : Session) : Prop :=
  history s ≠ [] ∧
  historyIndex s < length (history s) ∧
  ∃ p, puzzle s = Some p ∧ history s !! historyIndex s = Some p.

(** A 9x9 grid whose cells are numbers or [null]. *)
Definition tidy (g : Grid) : Prop :=
  grid9 g ∧ ∀ r c, r < 9 → c < 9 → cellAt g r c ≠ Undefined.

(** [(row, col)] is a given cell of the 9x9 puzzle [orig]. *)
Definition givenCell (orig : Grid) (row col : Z) : Prop :=
  (0 ≤ row < 9)%Z ∧ (0 ≤ col < 9)%Z ∧
  cellAt orig (Z.to_nat row) (Z.to_nat col) ≠ Null.

#[global] Instance grid9_dec g : Decision (grid9 g).
Proof. unfold grid9. tc_solve. Defined.

(** The session that the concrete source starts, and the state of the
    source after that. *)
Definition started : Session * (nat * bool) :=
  Eval vm_compute in
    match startSession 100 counter0 with
    | Ret x => x
    | _ => (newSession [] [], counter0)
    end.

(** ** Arrays as objects: [createPuzzle] on a heap

    The grids above are values. To say what a call does to the arrays it
    is given, arrays are objects of a heap here: a grid is an array of
    references to row arrays, allocation appends to the heap, and a write
    replaces the object at a location. *)
Module Heap.
Abbreviation loc := nat.

Inductive object : Type :=
  | RowArray (cells : list cell)
  | GridArray (rows : list loc).

Abbreviation heap := (list object).

Definition alloc (h : heap) (o : object) : heap * loc :=
  (h ++ [o], length h).

(** [rows.map((row) => [...row])]: every row is copied into a new array.
    An element that is not a row array is outside the grids of this
    model. *)
Fixpoint copyRows (h : heap) (rows : list loc) : outcome (heap * list loc) :=
  match rows with
  | [] => Ret (h, [])
  | l :: rest =>
      match h !! l with
      | Some (RowArray cells) =>
          let '(h1, l') := alloc h (RowArray (spread cells)) in
          '(h2, ls) ← copyRows h1 rest;
          Ret (h2, l' :: ls)
      | _ => TypeError
      end
  end.

(** [const puzzle = grid.map((row) => [...row])] *)
Definition copyGrid (h : heap) (grid : loc) : outcome (heap * loc) :=
  match h !! grid with
  | Some (GridArray rows) =>
      '(h1, rows') ← copyRows h rows;
      Ret (alloc h1 (GridArray rows'))
  | _ => TypeError
  end.

(** The row object that [puzzle[row]] refers to. *)
Definition rowOf (h : heap) (puzzle : loc) (row : nat)
    : outcome (loc * list cell) :=
  match h !! puzzle with
  | Some (GridArray rows) =>
      match rows !! row with
      | Some l =>
          match h !! l with
          | Some (RowArray cells) => Ret (l, cells)
          | _ => TypeError
          end
      | None => TypeError
      end
  | _ => TypeError
  end.

Section loop.
Context `{RandomSource R}.

(** One round of [while (attempts > 0)]. *)
Definition round (puzzle : loc) (st : heap * Z * R)
    : outcome (heap * Z * R) :=
  let '(h, attempts, rng) := st in
  let '(row, rng1) := random9 rng in
  let '(col, rng2) := random9 rng1 in
  '(l, cells) ← rowOf h puzzle row;
  if is_null (arr_get cells col) then Ret (h, attempts, rng2)
  else Ret (<[l := RowArray (arr_set cells col Null)]> h,
            (attempts - 1)%Z, rng2).

Fixpoint removeLoop (fuel : nat) (puzzle : loc) (st : heap * Z * R)
    : outcome (heap * Z * R) :=
  if decide (st.1.2 > 0)%Z then
    match fuel with
    | 0 => OutOfFuel
    | S fuel' => st' ← round puzzle st; removeLoop fuel' puzzle st'
    end
  else Ret st.

(** The state after [n] rounds, or at the end of the loop if that
    comes first. *)
Fixpoint afterRounds (n : nat) (puzzle : loc) (st : heap * Z * R)
    : outcome (heap * Z * R) :=
  match n with
  | 0 => Ret st
  | S n' =>
      if decide (st.1.2 > 0)%Z then
        st' ← round puzzle st; afterRounds n' puzzle st'
      else Ret st
  end.

(** The call returns the location of the new grid. *)
Definition createPuzzle (fuel : nat) (h : heap) (grid : loc)
    (difficulty : Z) (rng : R) : outcome (loc * heap * R) :=
  '(h1, puzzle) ← copyGrid h grid;
  '(h2, _, rng') ← removeLoop fuel puzzle (h1, difficulty, rng);
  Ret (puzzle, h2, rng').
End loop.

(** The grid that a location holds, as a value. *)
Definition viewGrid (h : heap) (grid : loc) : option Grid :=
  match h !! grid with
  | Some (GridArray rows) =>
      mapM (λ l, match h !! l with
                 | Some (RowArray cells) => Some cells
                 | _ => None
                 end) rows
  | _ => None
  end.

(** Every object of [h] is still in [h'], as it was. *)
Definition unchanged (h h' : heap) : Prop :=
  ∀ l o, h !! l = Some o → h' !! l = Some o.

(** What holds of the heap while the loop runs on the copy [puzzle] made
    from the heap [h0]: the objects of [h0] are as they were, and the
    rows of [puzzle] are objects allocated after them. *)
Definition loopInvariant (h0 : heap) (puzzle : loc) (h : heap) : Prop :=
  unchanged h0 h ∧ length h0 ≤ puzzle ∧
  ∃ rows, h !! puzzle = Some (GridArray rows) ∧
    Forall (λ l, length h0 ≤ l < puzzle) rows.

(** The array at [puzzle] holds the grid [g], in rows that are distinct
    objects. *)
Definition holds (h : heap) (puzzle : loc) (g : Grid) : Prop :=
  ∃ rows, h !! puzzle = Some (GridArray rows) ∧ NoDup rows ∧
    Forall2 (λ l cells, h !! l = Some (RowArray cells)) rows g.

(** A grid laid out on an empty heap: its rows, then the array of
    rows. *)
Definition store (g : Grid) : heap * loc :=
  alloc (RowArray <$> g) (GridArray (seq 0 (length g))).
End Heap.

(** ** Sessions that keep their given cells *)

(** A snapshot of a session whose puzzle is [orig]: a 9x9 grid of numbers
    and [null]s that has the given cells of [orig]. *)
Definition snapshotOk (orig q : Grid) : Prop :=
  tidy q ∧
  ∀ r c, r < 9 → c < 9 → cellAt orig r c ≠ Null → cellAt q r c = cellAt orig r c.

Definition sessionOk (s : Session) : Prop :=
  grid9 (solution s) ∧ fullGrid (solution s) ∧ tidy (originalPuzzle s) ∧
  (∀ r c, cellAt (originalPuzzle s) r c ≠ Null →
     cellAt (originalPuzzle s) r c = cellAt (solution s) r c) ∧
  Forall (snapshotOk (originalPuzzle s)) (history s) ∧
  historyInvariant s.

(** Every given cell of the puzzle holds the number of the solution. *)
Definition givensKept (s : Session) : Prop :=
  ∃ p, puzzle s = Some p ∧
    ∀ r c, r < 9 → c < 9 → cellAt (originalPuzzle s) r c ≠ Null →
      cellAt p r c = cellAt (solution s) r c.

(** The sessions that the operations other than [reset] lead to. *)
Inductive reachedWithoutReset `{RandomSource R} : Session → Prop :=
  | reached_start fuel rng s rng' :
      startSession fuel rng = Ret (s, rng') → reachedWithoutReset s
  | reached_event s e :
      reachedWithoutReset s → reachedWithoutReset (perform s e)
  | reached_regenerate s fuel rng s' rng' :
      reachedWithoutReset s → regenerate fuel s rng = Ret (s', rng') →
      reachedWithoutReset s'.

(** The concrete session after a [reset]. *)
Definition afterReset : Session * (nat * bool) :=
  Eval vm_compute in
    match reset 100 started.1 started.2 with
    | Ret x => x
    | _ => started
    end.

(** ** The rest of the component *)

(** [arr.every((x, i) => f(i, x))]: holes are skipped, the first [false]
    ends the loop, and the callback may throw. *)
Fixpoint everyIndexed {A} (isHole : A → bool) (f : nat → A → outcome bool)
    (i : nat) (l : list A) : outcome bool :=
  match l with
  | [] => Ret true
  | x :: l' =>
      if isHole x then everyIndexed isHole f (S i) l'
      else
        b ← f i x;
        if b : bool then everyIndexed isHole f (S i) l' else Ret false
  end.

(** [checkSolution] (App.js 121-130): the value of [isCorrect], which
    chooses between the two alerts. *)
Definition checkSolution (s : Session) : outcome bool :=
  match puzzle s with
  | None => TypeError
  | Some p =>
      everyIndexed (λ _ : Row, false) (λ rowIndex row,
        everyIndexed (λ c, bool_decide (c = Hole)) (λ colIndex c,
          o ← getCell (solution s) rowIndex colIndex;
          Ret (bool_decide (c = o))) 0 row) 0 p
  end.

(** The numbers that the keys of [renderNumberKeys] (App.js 155-165) pass
    to [handleNumberClick]: [num + 1] for [num] in [[...Array(9).keys()]]. *)
Definition keyValues : list Z := (λ num, Z.of_nat num + 1)%Z <$> seq 0 9.

(** The handler of an event, with what it throws. *)
Definition handle (e : event) (s : Session) : outcome Session :=
  match e with
  | SelectCell row col => handleCellClick row col s
  | EnterValue num => handleNumberClick num s
  | Undo => Ret (undo s)
  | Redo => Ret (redo s)
  | ClearUserInputs => clearUserInputs s
  end.

(** A run of events that stops at the first handler that throws. *)
Fixpoint runEvents (s : Session) (events : list event) : outcome Session :=
  match events with
  | [] => Ret s
  | e :: rest => s' ← handle e s; runEvents s' rest
  end.

(** The events that the rendered board and keypad can produce: a press on
    one of the 81 cells, one of the nine keys, or a button. *)
Definition fromBoard (e : event) : Prop :=
  match e with
  | SelectCell row col => (0 ≤ row < 9)%Z ∧ (0 ≤ col < 9)%Z
  | EnterValue num => num ∈ keyValues
  | _ => True
  end.

(** The selected cell, if any, is an empty cell of the original puzzle. *)
Definition selectionEditable (s : Session) : Prop :=
  ∀ row col, selectedCell s = Some (row, col) →
    getCellZ (originalPuzzle s) row col = Ret Null.

(** The source is fair from every state. *)
Definition alwaysFair `{RandomSource R} : Prop := ∀ rng : R, fairFrom rng.

(** A session with three snapshots in its log, the cursor on the last. *)
Definition threeMoves : Session :=
  Eval vm_compute in
    performAll started.1
      [SelectCell 0 0; EnterValue 5; SelectCell 0 1; EnterValue 6].


(** ** What is rendered *)

(** What [renderCell] (App.js 132-145) puts on the screen for one cell:
    the text [value || ""] ([None] for the empty string), the two style
    switches, and the event that its [onPress] raises. *)
Record CellView : Type := {
  text : option Z;
  isPreFilled : bool;
  isSelected : bool;
  onPress : event
}.

(** [value || ""]: [null], [undefined] and 0 give the empty string. *)
Definition cellText (value : cell) : option Z :=
  match value with
  | Num n => if decide (n = 0)%Z then None else Some n
  | _ => None
  end.

(** [selectedCell && selectedCell.row === row && selectedCell.col === col] *)
Definition selectedAt (s : Session) (row col : nat) : bool :=
  match selectedCell s with
  | Some (r, c) => bool_decide (r = Z.of_nat row ∧ c = Z.of_nat col)
  | None => false
  end.

Definition renderCell (s : Session) (value : cell) (row col : nat)
    : outcome CellView :=
  o ← getCell (originalPuzzle s) row col;
  Ret {| text := cellText value;
         isPreFilled := negb (is_null o);
         isSelected := selectedAt s row col;
         onPress := SelectCell (Z.of_nat row) (Z.of_nat col) |}.

(** [renderRow] (App.js 147-153); [map] leaves a hole where the row has
    one, and nothing is rendered there. *)
Definition renderRow (s : Session) (row : Row) (rowIndex : nat)
    : outcome (list (option CellView)) :=
  mapIndexed (λ colIndex value,
    match value with
    | Hole => Ret None
    | _ => v ← renderCell s value rowIndex colIndex; Ret (Some v)
    end) 0 row.

(** [puzzle.map(renderRow)] (App.js 181). *)
Definition renderBoard (s : Session)
    : outcome (list (list (option CellView))) :=
  match puzzle s with
  | None => TypeError
  | Some p => mapIndexed (λ rowIndex row, renderRow s row rowIndex) 0 p
  end.

(** [renderNumberKeys] (App.js 155-165): the event of each key. *)
Definition renderNumberKeys : list event :=
  (λ num, EnterValue (Z.of_nat num + 1)) <$> seq 0 9.

(** The events that the rendered board, the keypad and the undo, redo and
    clear buttons raise. *)
Definition offered (board : list (list (option CellView))) : list event :=
  (onPress <$> omap id (mjoin board)) ++ renderNumberKeys ++
  [Undo; Redo; ClearUserInputs].

Definition viewAt (board : list (list (option CellView))) (r c : nat)
    : option CellView :=
  match board !! r with
  | Some row =>
      match row !! c with
      | Some (Some v) => Some v
      | _ => None
      end
  | None => None
  end.

(** The view of a cell of a 9x9 board, without the reads that may throw. *)
Definition viewOf (s : Session) (r c : nat) (value : cell) : option CellView :=
  match value with
  | Hole => None
  | _ => Some {| text := cellText value;
                 isPreFilled := negb (is_null (cellAt (originalPuzzle s) r c));
                 isSelected := selectedAt s r c;
                 onPress := SelectCell (Z.of_nat r) (Z.of_nat c) |}
  end.
(** * Proofs *)

(** ** The outcome monad and the loops *)

Lemma bind_Ret {A B} (a : A) (f : A → outcome B) : (Ret a ≫= f) = f a.
Proof. done. Qed.

Lemma forEarly_spec {A} (idxs : list nat) (body : nat → outcome (option A))
    (Q : A → Prop) (N : nat → Prop) :
  (∀ i, i ∈ idxs →
     (∃ a, body i = Ret (Some a) ∧ Q a) ∨ (body i = Ret None ∧ N i)) →
  (∃ a, forEarly idxs body = Ret (Some a) ∧ Q a) ∨
  (forEarly idxs body = Ret None ∧ ∀ i, i ∈ idxs → N i).
Proof.
  induction idxs as [|i idxs IH]; intros Hbody; simpl.
  - right. split; [done|]. intros i Hi. by apply elem_of_nil in Hi.
  - destruct (Hbody i) as [(a & -> & Ha) | [-> Hn]]; [left| |]; simpl; eauto.
    destruct IH as [Hs | [Hnone Hall]].
    + intros j Hj. apply Hbody. by right.
    + by left.
    + right. split; [done|]. intros j [->|Hj]%elem_of_cons; auto.
Qed.

(** ** Reading and writing a 9x9 grid *)

Lemma grid9_lookup (g : Grid) r :
  grid9 g → r < 9 → ∃ row, g !! r = Some row ∧ length row = 9.
Proof.
  intros [Hlen Hrows] Hr.
  destruct (lookup_lt_is_Some_2 g r) as [row Hrow]; [lia|].
  exists row. split; [done|].
  by eapply Forall_lookup_1 in Hrows.
Qed.

Lemma getCell_grid9 (g : Grid) r c :
  grid9 g → r < 9 → getCell g r c = Ret (cellAt g r c).
Proof.
  intros Hg Hr. destruct (grid9_lookup g r Hg Hr) as (row & Hrow & _).
  unfold getCell, cellAt. by rewrite Hrow.
Qed.

Lemma is_num_true v n : is_num v n = true ↔ v = Num n.
Proof.
  destruct v; simpl; try (split; [done|congruence]).
  rewrite bool_decide_eq_true. split; [by intros ->|congruence].
Qed.

Lemma is_num_false v n : is_num v n = false ↔ v ≠ Num n.
Proof. rewrite <-is_num_true. by destruct (is_num v n). Qed.

Lemma is_null_true v : is_null v = true ↔ v = Null.
Proof. by destruct v. Qed.

Lemma is_null_false v : is_null v = false ↔ v ≠ Null.
Proof. by destruct v. Qed.

Lemma setCell_grid9 (g : Grid) r c v :
  grid9 g → r < 9 → c < 9 → v ≠ Hole →
  ∃ g', setCell g r c v = Ret g' ∧ grid9 g' ∧
    cellAt g' r c = v ∧
    ∀ r' c', ¬ (r' = r ∧ c' = c) → cellAt g' r' c' = cellAt g r' c'.
Proof.
  intros Hg Hr Hc Hv. destruct (grid9_lookup g r Hg Hr) as (row & Hrow & Hlen).
  unfold setCell. rewrite Hrow. eexists; split; [done|].
  unfold arr_set. rewrite decide_True by lia.
  destruct Hg as [Hg1 Hg2]. split; [|split].
  - split; [by rewrite length_insert|].
    apply Forall_insert; [done|]. by rewrite length_insert.
  - unfold cellAt. rewrite list_lookup_insert_eq by lia.
    unfold arr_get. rewrite list_lookup_insert_eq by lia. by destruct v.
  - intros r' c' Hne. unfold cellAt.
    destruct (decide (r' = r)) as [->|Hr'].
    + rewrite list_lookup_insert_eq by lia. rewrite Hrow.
      unfold arr_get. rewrite list_lookup_insert_ne; [done|]. naive_solver.
    + by rewrite list_lookup_insert_ne.
Qed.

Lemma grid9_ext (g g' : Grid) :
  grid9 g → grid9 g' →
  (∀ r c, r < 9 → c < 9 → cellAt g r c ≠ Undefined) →
  (∀ r c, r < 9 → c < 9 → cellAt g' r c = cellAt g r c) →
  g' = g.
Proof.
  intros Hg Hg' Hdef Heq. apply list_eq. intros r.
  destruct (decide (r < 9)) as [Hr|Hr].
  2: { destruct Hg as [Hg _], Hg' as [Hg' _].
       rewrite !lookup_ge_None_2; [done|lia..]. }
  destruct (grid9_lookup g r Hg Hr) as (row & Hrow & Hlen).
  destruct (grid9_lookup g' r Hg' Hr) as (row' & Hrow' & Hlen').
  rewrite Hrow, Hrow'. f_equal. apply list_eq. intros c.
  destruct (decide (c < 9)) as [Hc|Hc].
  2: { rewrite !lookup_ge_None_2; [done|lia..]. }
  specialize (Hdef r c Hr Hc). specialize (Heq r c Hr Hc).
  unfold cellAt, arr_get in *. rewrite Hrow in *. rewrite Hrow' in *.
  destruct (lookup_lt_is_Some_2 row c) as [x Hx]; [lia|].
  destruct (lookup_lt_is_Some_2 row' c) as [y Hy]; [lia|].
  rewrite Hx, Hy in *. destruct x, y; congruence.
Qed.

(** ** The constraint checker *)

Lemma isValidPlacement_spec (g : Grid) row col num :
  grid9 g → row < 9 → col < 9 →
  (isValidPlacement g row col num = Ret true ∧
   ∀ r' c', r' < 9 → c' < 9 → sees row col r' c' → cellAt g r' c' ≠ Num num) ∨
  (isValidPlacement g row col num = Ret false ∧
   ∃ r' c', r' < 9 ∧ c' < 9 ∧ sees row col r' c' ∧ cellAt g r' c' = Num num).
Proof.
  intros Hg Hrow Hcol. unfold isValidPlacement.
  set (Q := λ b : bool, b = false ∧
    ∃ r' c', r' < 9 ∧ c' < 9 ∧ sees row col r' c' ∧ cellAt g r' c' = Num num).
  match goal with |- context [forEarly (seq 0 9) ?body] =>
    destruct (forEarly_spec (seq 0 9) body Q
      (λ i, cellAt g row i ≠ Num num ∧ cellAt g i col ≠ Num num))
      as [(b & -> & -> & Hex) | [-> Hline]]
  end.
  { intros i [_ Hi]%elem_of_seq. simpl in Hi.
    rewrite !getCell_grid9 by (done || lia). simpl.
    destruct (is_num (cellAt g row i) num) eqn:E1.
    - left. eexists; split; [done|]. split; [done|].
      exists row, i. apply is_num_true in E1. unfold sees. naive_solver.
    - destruct (is_num (cellAt g i col) num) eqn:E2.
      + left. eexists; split; [done|]. split; [done|].
        exists i, col. apply is_num_true in E2. unfold sees. naive_solver.
      + right. apply is_num_false in E1, E2. done. }
  { by right. }
  rewrite bind_Ret. cbv beta iota zeta.
  match goal with |- context [forEarly (seq 0 3) ?body] =>
    destruct (forEarly_spec (seq 0 3) body Q
      (λ i, ∀ j, j < 3 →
         cellAt g (row / 3 * 3 + i) (col / 3 * 3 + j) ≠ Num num))
      as [(b & -> & -> & Hex) | [-> Hbox]]
  end.
  { intros i [_ Hi]%elem_of_seq. simpl in Hi.
    match goal with |- context [forEarly (seq 0 3) ?body] =>
      destruct (forEarly_spec (seq 0 3) body Q
        (λ j, cellAt g (row / 3 * 3 + i) (col / 3 * 3 + j) ≠ Num num))
        as [(b & -> & HQ) | [-> Hn]]
    end.
    - intros j [_ Hj]%elem_of_seq. simpl in Hj.
      rewrite getCell_grid9 by (done || lia_div). simpl.
      destruct (is_num _ num) eqn:E.
      + left. eexists; split; [done|]. split; [done|].
        exists (row / 3 * 3 + i), (col / 3 * 3 + j).
        apply is_num_true in E. unfold sees.
        repeat split; [lia_div|lia_div| |done].
        right; right. split; lia_div.
      + right. by apply is_num_false in E.
    - left. eauto.
    - right. split; [done|]. intros j Hj. apply Hn, elem_of_seq. lia. }
  { by right. }
  left. split; [done|]. intros r' c' Hr' Hc' Hsees.
  destruct Hsees as [<- | [<- | [Hr3 Hc3]]].
  - apply (Hline c'), elem_of_seq. lia.
  - apply (Hline r'), elem_of_seq. lia.
  - replace r' with (row / 3 * 3 + r' `mod` 3) by lia_div.
    replace c' with (col / 3 * 3 + c' `mod` 3) by lia_div.
    apply Hbox; [apply elem_of_seq|]; lia_div.
Qed.

(** ** The empty cells of a grid *)

Lemma elem_of_positions r c : (r, c) ∈ positions ↔ r < 9 ∧ c < 9.
Proof.
  unfold positions. rewrite list_elem_of_bind. split.
  - intros (r' & (c' & Hp & Hc)%list_elem_of_bind & Hr).
    apply list_elem_of_singleton in Hp. simplify_eq.
    apply elem_of_seq in Hr, Hc. lia.
  - intros [Hr Hc]. exists r. split; [|apply elem_of_seq; lia].
    apply list_elem_of_bind. exists c. split; [by left|apply elem_of_seq; lia].
Qed.

Lemma filter_length_le {A} (P Q : A → Prop)
    `{!∀ x, Decision (P x)} `{!∀ x, Decision (Q x)} (l : list A) :
  (∀ x, x ∈ l → Q x → P x) → length (filter Q l) ≤ length (filter P l).
Proof.
  induction l as [|x l IH]; intros HQP; [done|].
  rewrite !filter_cons.
  assert (length (filter Q l) ≤ length (filter P l)).
  { apply IH. intros y Hy. apply HQP. by right. }
  destruct (decide (Q x)) as [HQ|HQ]; destruct (decide (P x)) as [HP|HP];
    simpl; try lia.
  destruct HP. apply HQP; [by left|done].
Qed.

Lemma filter_length_lt {A} (P Q : A → Prop)
    `{!∀ x, Decision (P x)} `{!∀ x, Decision (Q x)} (l : list A) x0 :
  x0 ∈ l → P x0 → ¬ Q x0 → (∀ x, x ∈ l → Q x → P x) →
  length (filter Q l) < length (filter P l).
Proof.
  induction l as [|x l IH]; intros Hin HP HQ HQP.
  { by apply elem_of_nil in Hin. }
  rewrite !filter_cons.
  assert (∀ y, y ∈ l → Q y → P y) as HQP'.
  { intros y Hy. apply HQP. by right. }
  pose proof (filter_length_le P Q l HQP').
  apply elem_of_cons in Hin as [<-|Hin].
  - destruct (decide (Q x0)); [done|]. destruct (decide (P x0)); [|done].
    simpl. lia.
  - specialize (IH Hin HP HQ HQP').
    destruct (decide (Q x)) as [HQx|HQx]; destruct (decide (P x)) as [HPx|HPx];
      simpl; try lia.
    destruct HPx. apply HQP; [by left|done].
Qed.

Lemma nulls_fill (g g' : Grid) r c :
  r < 9 → c < 9 → cellAt g r c = Null → cellAt g' r c ≠ Null →
  (∀ r' c', ¬ (r' = r ∧ c' = c) → cellAt g' r' c' = cellAt g r' c') →
  nulls g' < nulls g.
Proof.
  intros Hr Hc Hnull Hfilled Hsame. unfold nulls.
  apply (filter_length_lt _ _ _ (r, c)); simpl; try done.
  - by apply elem_of_positions.
  - intros [r' c'] _; simpl. destruct (decide (r' = r ∧ c' = c)) as [[-> ->]|Hne].
    + done.
    + by rewrite Hsame.
Qed.

Lemma nulls_le_81 (g : Grid) : nulls g ≤ 81.
Proof.
  unfold nulls. etrans; [apply length_filter|]. by vm_compute.
Qed.

(** ** Units of a solved grid *)

Lemma elem_of_digits n : (1 ≤ n ≤ 9)%Z → Num n ∈ digits.
Proof.
  intros Hn.
  assert (n ∈ [1; 2; 3; 4; 5; 6; 7; 8; 9]%Z) as Hin.
  { assert (n = 1 ∨ n = 2 ∨ n = 3 ∨ n = 4 ∨ n = 5 ∨ n = 6 ∨ n = 7 ∨ n = 8 ∨
            n = 9)%Z as Hcases by lia.
    destruct Hcases as [->|[->|[->|[->|[->|[->|[->|[->| ->]]]]]]]];
      by repeat constructor. }
  unfold digits. apply list_elem_of_fmap. by exists n.
Qed.

Lemma elem_of_oneToNine n : n ∈ oneToNine ↔ (1 ≤ n ≤ 9)%Z.
Proof.
  unfold oneToNine. rewrite list_elem_of_fmap. split.
  - intros (k & -> & Hk%elem_of_seq). lia.
  - intros Hn. exists (Z.to_nat (n - 1)). split; [lia|apply elem_of_seq; lia].
Qed.

Lemma unit_permutation (g : Grid) (pos : nat → nat * nat) :
  fullGrid g → noClash g →
  (∀ k, k < 9 → (pos k).1 < 9 ∧ (pos k).2 < 9) →
  (∀ j k, j < 9 → k < 9 →
     sees (pos j).1 (pos j).2 (pos k).1 (pos k).2 ∧ (pos j = pos k → j = k)) →
  (λ k, cellAt g (pos k).1 (pos k).2) <$> seq 0 9 ≡ₚ digits.
Proof.
  intros Hfull Hclash Hrange Hunit.
  apply submseteq_length_Permutation; [|by rewrite length_fmap].
  apply NoDup_submseteq.
  - apply NoDup_fmap_2_strong; [|apply NoDup_seq].
    intros j k [_ Hj]%elem_of_seq [_ Hk]%elem_of_seq Heq. simpl in *.
    destruct (Hrange j Hj) as [? ?], (Hrange k Hk) as [? ?].
    destruct (Hfull (pos j).1 (pos j).2) as (n & Hn & _); [done..|].
    destruct (Hunit j k Hj Hk) as [Hsees Hinj]. apply Hinj.
    destruct (Hclash (pos j).1 (pos j).2 (pos k).1 (pos k).2 n) as [? ?];
      try done; [congruence|].
    by destruct (pos j), (pos k); simplify_eq/=.
  - intros v (k & -> & [_ Hk]%elem_of_seq)%list_elem_of_fmap. simpl in *.
    destruct (Hrange k Hk) as [? ?].
    destruct (Hfull (pos k).1 (pos k).2) as (n & -> & Hn); [done..|].
    by apply elem_of_digits.
Qed.

Lemma solvedGrid_intro (g : Grid) :
  grid9 g → fullGrid g → noClash g → solvedGrid g.
Proof.
  intros Hg Hfull Hclash. split; [done|]. split.
  - intros row col Hrow Hcol.
    destruct (Hfull row col Hrow Hcol) as (n & Hn & Hrange). exists n.
    split; [|done]. unfold cellAt, arr_get in Hn.
    destruct (g !! row) as [r|]; [simpl|done].
    destruct (r !! col) as [[]|]; congruence.
  - intros k Hk. split; [|split].
    + apply (unit_permutation g (λ c, (k, c))); [done|done|..].
      * intros; simpl; lia.
      * intros i j _ _. unfold sees. simpl. split; [by left|congruence].
    + apply (unit_permutation g (λ r, (r, k))); [done|done|..].
      * intros; simpl; lia.
      * intros i j _ _. unfold sees. simpl. split; [by right; left|congruence].
    + apply (unit_permutation g
        (λ i, (k / 3 * 3 + i / 3, k `mod` 3 * 3 + i `mod` 3))); [done|done|..].
      * intros; cbn [fst snd]; lia_div.
      * intros i j Hi Hj. unfold sees. cbn [fst snd]. split.
        -- right; right. split; lia_div.
        -- intros Heq. simplify_eq. lia_div.
Qed.

(** ** The generator *)

Lemma sees_sym r c r' c' : sees r c r' c' → sees r' c' r c.
Proof. unfold sees. intros [->|[->|[-> ->]]]; auto. Qed.

Lemma firstNull_spec (g : Grid) :
  grid9 g →
  (∃ row col, firstNull g = Ret (Some (row, col)) ∧
     row < 9 ∧ col < 9 ∧ cellAt g row col = Null) ∨
  (firstNull g = Ret None ∧ ∀ r c, r < 9 → c < 9 → cellAt g r c ≠ Null).
Proof.
  intros Hg. unfold firstNull.
  set (Q := λ p : nat * nat, p.1 < 9 ∧ p.2 < 9 ∧ cellAt g p.1 p.2 = Null).
  match goal with |- context [forEarly (seq 0 9) ?body] =>
    destruct (forEarly_spec (seq 0 9) body Q
      (λ r, ∀ c, c < 9 → cellAt g r c ≠ Null))
      as [([row col] & Hres & Hrow & Hcol & Hnull) | [Hres Hnone]]
  end.
  - intros r [_ Hr]%elem_of_seq. simpl in Hr.
    match goal with |- context [forEarly (seq 0 9) ?body] =>
      destruct (forEarly_spec (seq 0 9) body Q (λ c, cellAt g r c ≠ Null))
        as [(p & Hres & HQ) | [Hres Hnone]]
    end.
    + intros c [_ Hc]%elem_of_seq. simpl in Hc.
      rewrite getCell_grid9, bind_Ret by done.
      destruct (is_null (cellAt g r c)) eqn:E.
      * left. exists (r, c). apply is_null_true in E. by unfold Q.
      * right. by apply is_null_false in E.
    + left. eauto.
    + right. split; [done|]. intros c Hc. apply Hnone, elem_of_seq. lia.
  - left. exists row, col. done.
  - right. split; [done|]. intros r c Hr Hc. apply Hnone; [|done].
    apply elem_of_seq. lia.
Qed.

Section generator_correct.
Context `{RandomSource R}.
Hypothesis shuffle_ok : shuffle_permutes.

Lemma place_ok (g g1 : Grid) row col num :
  cellsOk g → noClash g → row < 9 → col < 9 → (1 ≤ num ≤ 9)%Z →
  (∀ r' c', r' < 9 → c' < 9 → sees row col r' c' →
     cellAt g r' c' ≠ Num num) →
  cellAt g1 row col = Num num →
  (∀ r' c', ¬ (r' = row ∧ c' = col) → cellAt g1 r' c' = cellAt g r' c') →
  cellsOk g1 ∧ noClash g1.
Proof.
  intros Hok Hclash Hrow Hcol Hnum Hvalid Hnew Hsame. split.
  - intros r c Hr Hc. destruct (decide (r = row ∧ c = col)) as [[-> ->]|Hne].
    + right. eauto.
    + rewrite Hsame by done. by apply Hok.
  - intros r c r' c' n Hr Hc Hr' Hc' Hn Hn' Hsees.
    destruct (decide (r = row ∧ c = col)) as [[-> ->]|Hne];
      destruct (decide (r' = row ∧ c' = col)) as [[-> ->]|Hne']; try done.
    + rewrite Hsame in Hn' by done. rewrite Hnew in Hn. simplify_eq.
      by destruct (Hvalid r' c').
    + rewrite Hsame in Hn by done. rewrite Hnew in Hn'. simplify_eq.
      destruct (Hvalid r c); try done. by apply sees_sym.
    + rewrite Hsame in Hn, Hn' by done. by eapply Hclash.
Qed.

Lemma tryNumbers_spec (rec : Grid → R → outcome (bool * Grid * R))
    (bound : nat) (g : Grid) row col :
  (∀ g1 rng1, grid9 g1 → cellsOk g1 → noClash g1 → nulls g1 < bound →
     ∃ res, rec g1 rng1 = Ret res ∧ fillPost g1 res) →
  grid9 g → cellsOk g → noClash g → nulls g ≤ bound →
  row < 9 → col < 9 → cellAt g row col = Null →
  ∀ numbers rng, (∀ n, n ∈ numbers → (1 ≤ n ≤ 9)%Z) →
  ∃ filled g' rng',
    tryNumbers rec row col numbers g rng = Ret (filled, g', rng') ∧
    grid9 g' ∧
    if filled then fullGrid g' ∧ noClash g'
    else g' = g ∧ ∀ s n, fullGrid s → noClash s → extends g s →
           cellAt s row col = Num n → n ∉ numbers.
Proof.
  intros Hrec Hg Hok Hclash Hbound Hrow Hcol Hnull.
  induction numbers as [|num rest IH]; intros rng Hrange; simpl.
  { exists false, g, rng. do 3 (split; [done|]).
    intros s n _ _ _ _ Hin. by apply elem_of_nil in Hin. }
  assert (∀ n, n ∈ rest → (1 ≤ n ≤ 9)%Z) as Hrest.
  { intros n Hn. apply Hrange. by right. }
  destruct (isValidPlacement_spec g row col num Hg Hrow Hcol)
    as [[-> Hvalid] | [-> (r' & c' & Hr' & Hc' & Hsees & Hocc)]];
    rewrite bind_Ret.
  - (* the number fits: place it and recurse *)
    destruct (setCell_grid9 g row col (Num num) Hg Hrow Hcol)
      as (g1 & -> & Hg1 & Hnew & Hsame); [done|].
    rewrite bind_Ret.
    destruct (place_ok g g1 row col num) as [Hok1 Hclash1]; try done.
    { apply Hrange. by left. }
    destruct (Hrec g1 rng) as ([[filled g2] rng2] & -> & Hg2 & Hpost);
      try done.
    { eapply Nat.lt_le_trans; [|exact Hbound].
      apply (nulls_fill g g1 row col); try done. by rewrite Hnew. }
    rewrite bind_Ret. destruct filled.
    { exists true, g2, rng2. done. }
    destruct Hpost as [-> Hnone].
    destruct (setCell_grid9 g1 row col Null Hg1 Hrow Hcol)
      as (g3 & -> & Hg3 & Hnew3 & Hsame3); [done|].
    rewrite bind_Ret.
    assert (g3 = g) as ->.
    { apply grid9_ext; try done.
      - intros r c Hr Hc. destruct (Hok r c Hr Hc) as [->|(n & -> & _)]; done.
      - intros r c Hr Hc.
        destruct (decide (r = row ∧ c = col)) as [[-> ->]|Hne].
        + by rewrite Hnew3, Hnull.
        + by rewrite Hsame3, Hsame. }
    destruct (IH rng2 Hrest) as (filled & g' & rng' & -> & Hg' & Hpost).
    exists filled, g', rng'. split; [done|]. split; [done|].
    destruct filled; [done|]. destruct Hpost as [-> Hexcl]. split; [done|].
    intros s n Hfull Hcl Hext Hs [->|Hin]%elem_of_cons; [|by eapply Hexcl].
    apply (Hnone s); try done.
    intros r c m Hr Hc Hm.
    destruct (decide (r = row ∧ c = col)) as [[-> ->]|Hne].
    + by rewrite Hnew in Hm; simplify_eq.
    + rewrite Hsame in Hm by done. by apply Hext.
  - (* the number clashes with a cell of the grid *)
    destruct (IH rng Hrest) as (filled & g' & rng' & -> & Hg' & Hpost).
    exists filled, g', rng'. split; [done|]. split; [done|].
    destruct filled; [done|]. destruct Hpost as [-> Hexcl]. split; [done|].
    intros s n Hfull Hcl Hext Hs [->|Hin]%elem_of_cons; [|by eapply Hexcl].
    destruct (Hcl row col r' c' num) as [-> ->]; try done.
    { by apply Hext. }
    congruence.
Qed.

Lemma fillGrid_spec fuel (g : Grid) rng :
  grid9 g → cellsOk g → noClash g → nulls g < fuel →
  ∃ res, fillGrid fuel g rng = Ret res ∧ fillPost g res.
Proof.
  revert g rng. induction fuel as [|fuel IH]; intros g rng Hg Hok Hclash Hfuel.
  { lia. }
  simpl. destruct (firstNull_spec g Hg)
    as [(row & col & -> & Hrow & Hcol & Hnull) | [-> Hfull]]; rewrite bind_Ret.
  - destruct (shuffle rng oneToNine) as [numbers rng1] eqn:Hsh.
    assert (numbers ≡ₚ oneToNine) as Hperm.
    { pose proof (shuffle_ok rng oneToNine) as Hp. by rewrite Hsh in Hp. }
    destruct (tryNumbers_spec (fillGrid fuel) fuel g row col IH Hg Hok Hclash)
      with (numbers := numbers) (rng := rng1)
      as (filled & g' & rng' & -> & Hg' & Hpost); try done; [lia| |].
    { intros n Hn. apply elem_of_oneToNine. by rewrite <-Hperm. }
    eexists; split; [done|]. split; [done|].
    destruct filled; [done|]. destruct Hpost as [-> Hexcl]. split; [done|].
    intros s Hfull Hcl Hext.
    destruct (Hfull row col Hrow Hcol) as (n & Hn & Hrange).
    apply (Hexcl s n); try done.
    rewrite Hperm. by apply elem_of_oneToNine.
  - eexists; split; [done|]. split; [done|]. split; [|done].
    intros r c Hr Hc.
    destruct (Hok r c Hr Hc) as [Hn|?]; [|done]. by destruct (Hfull r c).
Qed.
End generator_correct.

(** ** The empty grid and a solved one *)

Lemma cellAt_emptyGrid r c : r < 9 → c < 9 → cellAt emptyGrid r c = Null.
Proof.
  intros Hr Hc. unfold cellAt, emptyGrid, arr_get.
  rewrite lookup_replicate_2 by done. by rewrite lookup_replicate_2.
Qed.

Lemma grid9_emptyGrid : grid9 emptyGrid.
Proof. split; [done|]. by apply Forall_replicate. Qed.

Lemma fullGridCheck_sound (g : Grid) : fullGridCheck g → fullGrid g.
Proof.
  intros Hall r c Hr Hc. unfold fullGridCheck in Hall.
  rewrite list.Forall_forall in Hall.
  specialize (Hall (r, c)). simpl in Hall.
  destruct (cellAt g r c) as [| | |n];
    try (exfalso; apply Hall; by apply elem_of_positions).
  exists n. split; [done|].
  eapply bool_decide_unpack, Hall. by apply elem_of_positions.
Qed.

Lemma noClashCheck_sound (g : Grid) : noClashCheck g → noClash g.
Proof.
  intros Hall r c r' c' n Hr Hc Hr' Hc' Hn Hn' Hsees.
  unfold noClashCheck in Hall. rewrite list.Forall_forall in Hall.
  assert ((r, c) ∈ positions) as Hp by by apply elem_of_positions.
  assert ((r', c') ∈ positions) as Hq by by apply elem_of_positions.
  specialize (Hall (r, c) Hp). rewrite list.Forall_forall in Hall.
  destruct (Hall (r', c') Hq) as [Hnull | Heq]; simpl in *.
  - done.
  - congruence.
  - congruence.
  - by simplify_eq.
Qed.

Lemma sampleSolution_solved :
  grid9 sampleSolution ∧ fullGrid sampleSolution ∧ noClash sampleSolution.
Proof.
  split; [|split].
  - split; [done|]. by vm_compute; repeat constructor.
  - apply fullGridCheck_sound.
    apply (bool_decide_unpack _). by vm_compute.
  - apply noClashCheck_sound.
    apply (bool_decide_unpack _). by vm_compute.
Qed.

Lemma generateSudokuGrid_full `{RandomSource R} (fuel : nat) (rng : R) :
  shuffle_permutes → 82 ≤ fuel →
  ∃ g rng', generateSudokuGrid fuel rng = Ret (g, rng') ∧
    grid9 g ∧ fullGrid g ∧ noClash g.
Proof.
  intros Hshuffle Hfuel. unfold generateSudokuGrid.
  destruct (fillGrid_spec Hshuffle fuel emptyGrid rng)
    as ([[filled g] rng'] & -> & Hg & Hpost).
  - apply grid9_emptyGrid.
  - intros r c Hr Hc. left. by apply cellAt_emptyGrid.
  - intros r c r' c' n Hr Hc _ _ Hn. by rewrite cellAt_emptyGrid in Hn.
  - pose proof (nulls_le_81 emptyGrid). lia.
  - rewrite bind_Ret. exists g, rng'. split; [done|].
    destruct filled.
    + by destruct Hpost.
    + destruct Hpost as [_ Hnone].
      destruct sampleSolution_solved as (_ & Hfull & Hclash).
      destruct (Hnone sampleSolution Hfull Hclash).
      intros r c n Hr Hc Hn. by rewrite cellAt_emptyGrid in Hn.
Qed.

(** More fuel does not change what a call returns. *)
Lemma tryNumbers_mono `{RandomSource R}
    (rec rec' : Grid → R → outcome (bool * Grid * R)) row col :
  (∀ g rng res, rec g rng = Ret res → rec' g rng = Ret res) →
  ∀ numbers g rng res,
    tryNumbers rec row col numbers g rng = Ret res →
    tryNumbers rec' row col numbers g rng = Ret res.
Proof.
  intros Hrec. induction numbers as [|num rest IH]; intros g rng res; [done|].
  simpl. destruct (isValidPlacement g row col num) as [[]| |]; simpl; [|auto|done..].
  destruct (setCell g row col (Num num)) as [g1| |]; simpl; [|done..].
  destruct (rec g1 rng) as [[[filled g2] rng2]| |] eqn:E; simpl; [|done..].
  rewrite (Hrec _ _ _ E). simpl. destruct filled; [done|].
  destruct (setCell g2 row col Null) as [g3| |]; simpl; [|done..]. apply IH.
Qed.

Lemma fillGrid_mono `{RandomSource R} fuel fuel' (g : Grid) (rng : R) res :
  fuel ≤ fuel' → fillGrid fuel g rng = Ret res → fillGrid fuel' g rng = Ret res.
Proof.
  revert fuel' g rng res.
  induction fuel as [|fuel IH]; intros fuel' g rng res Hle; [done|].
  destruct fuel' as [|fuel']; [lia|]. simpl.
  destruct (firstNull g) as [[[row col]|]| |]; simpl; [|done..].
  destruct (shuffle rng oneToNine) as [numbers rng1].
  apply tryNumbers_mono. intros g1 r1 res1. apply IH. lia.
Qed.

Lemma generateSudokuGrid_returned `{RandomSource R} fuel (rng : R) g rng' :
  shuffle_permutes → generateSudokuGrid fuel rng = Ret (g, rng') →
  grid9 g ∧ fullGrid g ∧ noClash g.
Proof.
  intros Hshuffle Hrun.
  destruct (generateSudokuGrid_full (fuel + 82) rng Hshuffle)
    as (g1 & rng1 & Hrun1 & Hg1); [lia|].
  unfold generateSudokuGrid in *.
  destruct (fillGrid fuel emptyGrid rng) as [[[filled g2] rng2]| |] eqn:E;
    [|done..].
  rewrite (fillGrid_mono fuel (fuel + 82) _ _ _ ltac:(lia) E) in Hrun1.
  simpl in *. by simplify_eq.
Qed.

(** C1: whatever order the shuffles produce, [generateSudokuGrid] returns
    (with fuel for its 82 nested calls), and the grid it returns has a
    number 1..9 in every cell and each of 1..9 exactly once in every row,
    column and 3x3 box. *)
Theorem generateSudokuGrid_solved `{RandomSource R} (fuel : nat) (rng : R) :
  shuffle_permutes → 82 ≤ fuel →
  ∃ g rng', generateSudokuGrid fuel rng = Ret (g, rng') ∧ solvedGrid g.
Proof.
  intros Hshuffle Hfuel.
  destruct (generateSudokuGrid_full fuel rng Hshuffle Hfuel)
    as (g & rng' & Hrun & Hg & Hfull & Hclash).
  exists g, rng'. split; [done|]. by apply solvedGrid_intro.
Qed.

(** ** The puzzle deriver *)

Lemma filter_length_ext {A} (P Q : A → Prop)
    `{!∀ x, Decision (P x)} `{!∀ x, Decision (Q x)} (l : list A) :
  (∀ x, x ∈ l → (P x ↔ Q x)) → length (filter P l) = length (filter Q l).
Proof.
  intros HPQ. apply Nat.le_antisymm; apply filter_length_le;
    intros x Hx; by apply HPQ.
Qed.

Lemma filter_length_flip {A} (P Q : A → Prop)
    `{!∀ x, Decision (P x)} `{!∀ x, Decision (Q x)} (l : list A) x0 :
  NoDup l → x0 ∈ l → Q x0 → ¬ P x0 →
  (∀ x, x ∈ l → x ≠ x0 → (P x ↔ Q x)) →
  length (filter Q l) = S (length (filter P l)).
Proof.
  induction 1 as [|x l Hx Hnd IH]; intros Hin HQ HP Hsame.
  { by apply elem_of_nil in Hin. }
  rewrite !filter_cons. apply elem_of_cons in Hin as [->|Hin].
  - destruct (decide (Q x)); [|done]. destruct (decide (P x)); [done|].
    simpl. f_equal. symmetry. apply filter_length_ext.
    intros y Hy. apply Hsame; [by right|]. by intros ->.
  - assert (x ≠ x0) as Hne by by intros ->.
    assert (length (filter Q l) = S (length (filter P l))) as Hl.
    { apply IH; try done. intros y Hy. apply Hsame. by right. }
    assert (P x ↔ Q x) as Hx' by (apply Hsame; [by left|done]).
    destruct (decide (Q x)); destruct (decide (P x)); simpl; try lia; tauto.
Qed.

Lemma NoDup_positions : NoDup positions.
Proof. by apply (bool_decide_unpack _); vm_compute. Qed.

Lemma nulls_blank (g g' : Grid) r c :
  r < 9 → c < 9 → cellAt g r c ≠ Null → cellAt g' r c = Null →
  (∀ r' c', ¬ (r' = r ∧ c' = c) → cellAt g' r' c' = cellAt g r' c') →
  nulls g' = S (nulls g) ∧ S (nonNulls g') = nonNulls g.
Proof.
  intros Hr Hc Hfilled Hnull Hsame. unfold nulls, nonNulls.
  assert (∀ x : nat * nat, x ∈ positions → x ≠ (r, c) →
            cellAt g' x.1 x.2 = cellAt g x.1 x.2) as Hsame'.
  { intros [r' c'] _ Hne. simpl. apply Hsame. intros [-> ->]. done. }
  split; [|symmetry];
    apply (filter_length_flip _ _ _ (r, c)); simpl;
    try done; try apply NoDup_positions; try (by apply elem_of_positions).
  - intros x Hx Hne. by rewrite Hsame'.
  - by intros ?.
  - intros x Hx Hne. by rewrite Hsame'.
Qed.

Lemma nulls_nonNulls (g : Grid) : nulls g + nonNulls g = 81.
Proof.
  unfold nulls, nonNulls. rewrite <-length_app.
  by rewrite filter_app_complement.
Qed.

Lemma cellAt_spread (g : Grid) r c : cellAt (spread <$> g) r c = cellAt g r c.
Proof.
  unfold cellAt, arr_get, spread. rewrite list_lookup_fmap.
  destruct (g !! r) as [row|]; [simpl|done].
  rewrite list_lookup_fmap. by destruct (row !! c) as [[]|].
Qed.

Lemma filter_length_none {A} (P : A → Prop) `{!∀ x, Decision (P x)}
    (l : list A) :
  (∀ x, x ∈ l → ¬ P x) → length (filter P l) = 0.
Proof.
  induction l as [|x l IH]; intros HP; [done|].
  rewrite filter_cons. destruct (decide (P x)) as [Hx|Hx].
  - destruct (HP x); [by left|done].
  - apply IH. intros y Hy. apply HP. by right.
Qed.

Lemma nulls_fullGrid (g : Grid) : fullGrid g → nulls g = 0.
Proof.
  intros Hfull. unfold nulls. apply filter_length_none.
  intros [r c] [Hr Hc]%elem_of_positions. simpl.
  by destruct (Hfull r c Hr Hc) as (n & -> & _).
Qed.

Lemma fullGrid_spread (g : Grid) : fullGrid g → fullGrid (spread <$> g).
Proof. intros Hfull r c Hr Hc. rewrite cellAt_spread. by apply Hfull. Qed.

Lemma nonNulls_pos (g : Grid) :
  0 < nonNulls g → ∃ r c, r < 9 ∧ c < 9 ∧ cellAt g r c ≠ Null.
Proof.
  unfold nonNulls. intros Hpos.
  destruct (filter _ positions) as [|[r c] l] eqn:E; [simpl in Hpos; lia|].
  assert ((r, c) ∈ filter (λ p, cellAt g p.1 p.2 ≠ Null) positions) as Hin.
  { rewrite E. by left. }
  apply list_elem_of_filter in Hin as [Hne Hin]. apply elem_of_positions in Hin.
  exists r, c. by destruct Hin.
Qed.

Lemma grid9_spread (g : Grid) : grid9 g → grid9 (spread <$> g).
Proof.
  intros [Hlen Hrows]. split; [by rewrite length_fmap|].
  apply Forall_fmap. revert Hrows. apply List.Forall_impl.
  intros row Hrow. simpl. unfold spread. by rewrite length_fmap.
Qed.

Section deriver_correct.
Context `{RandomSource R}.
Hypothesis in_range : random9_in_range.

Lemma drawCell_range rng :
  (drawCell rng).1.1 < 9 ∧ (drawCell rng).1.2 < 9.
Proof.
  unfold drawCell. pose proof (in_range rng) as H1.
  destruct (random9 rng) as [row rng1]. pose proof (in_range rng1) as H2.
  by destruct (random9 rng1) as [col rng2].
Qed.

Lemma removeLoop_unfold fuel (p : Grid) a rng :
  (a > 0)%Z →
  removeLoop (S fuel) p a rng =
    let '(row, col, rng2) := drawCell rng in
    c ← getCell p row col;
    if is_null c then removeLoop fuel p a rng2
    else p' ← setCell p row col Null; removeLoop fuel p' (a - 1)%Z rng2.
Proof.
  intros Ha. simpl. rewrite decide_True by done. unfold drawCell.
  destruct (random9 rng) as [row rng1]. by destruct (random9 rng1).
Qed.

(** One round of the loop on a 9x9 grid. *)
Lemma removeLoop_round (p : Grid) a rng :
  grid9 p → (a > 0)%Z →
  ∃ row col rng2, drawCell rng = (row, col, rng2) ∧ row < 9 ∧ col < 9 ∧
    ((cellAt p row col = Null ∧
      ∀ fuel, removeLoop (S fuel) p a rng = removeLoop fuel p a rng2) ∨
     (cellAt p row col ≠ Null ∧
      ∃ p', grid9 p' ∧ cellAt p' row col = Null ∧
        (∀ r' c', ¬ (r' = row ∧ c' = col) →
           cellAt p' r' c' = cellAt p r' c') ∧
        ∀ fuel,
          removeLoop (S fuel) p a rng = removeLoop fuel p' (a - 1)%Z rng2)).
Proof.
  intros Hp Ha. pose proof (drawCell_range rng) as Hrange.
  destruct (drawCell rng) as [[row col] rng2] eqn:Hdraw.
  simpl in Hrange. destruct Hrange as [Hrow Hcol]. exists row, col, rng2.
  split; [done|]. split; [done|]. split; [done|].
  destruct (is_null (cellAt p row col)) eqn:E.
  - left. split; [by apply is_null_true in E|]. intros fuel.
    rewrite removeLoop_unfold, Hdraw by done.
    by rewrite getCell_grid9, bind_Ret, E by done.
  - right. split; [by apply is_null_false in E|].
    destruct (setCell_grid9 p row col Null Hp Hrow Hcol)
      as (p' & Hset & Hp' & Hnew & Hsame); [done|].
    exists p'. do 3 (split; [done|]). intros fuel.
    rewrite removeLoop_unfold, Hdraw by done.
    by rewrite getCell_grid9, bind_Ret, E, Hset, bind_Ret by done.
Qed.

Lemma removeLoop_sound fuel (p : Grid) a rng p' rng' :
  grid9 p → removeLoop fuel p a rng = Ret (p', rng') →
  grid9 p' ∧ nulls p' = nulls p + Z.to_nat a ∧
  ∀ r c, cellAt p' r c ≠ Null → cellAt p' r c = cellAt p r c.
Proof.
  revert p a rng. induction fuel as [|fuel IH]; intros p a rng Hp Hrun.
  - simpl in Hrun. destruct (decide (a > 0)%Z); [done|].
    simplify_eq. split; [done|]. split; [lia|done].
  - destruct (decide (a > 0)%Z) as [Ha|Ha].
    2: { simpl in Hrun. rewrite decide_False in Hrun by done.
         simplify_eq. split; [done|]. split; [lia|done]. }
    destruct (removeLoop_round p a rng Hp Ha)
      as (row & col & rng2 & _ & Hrow & Hcol &
          [[Hnull Heq] | (Hfilled & p1 & Hp1 & Hnew & Hsame & Heq)]);
      rewrite Heq in Hrun.
    + by apply IH in Hrun.
    + apply IH in Hrun as (Hp' & Hcount & Hkept); [|done].
      destruct (nulls_blank p p1 row col) as [Hn _]; try done.
      split; [done|]. split; [lia|].
      intros r c Hne. rewrite Hkept by done.
      apply Hsame. intros [-> ->]. rewrite Hkept in Hne; done.
Qed.

Lemma removeLoop_diverges fuel (p : Grid) a rng :
  grid9 p → (Z.of_nat (nonNulls p) < a)%Z →
  removeLoop fuel p a rng = OutOfFuel.
Proof.
  revert p a rng. induction fuel as [|fuel IH]; intros p a rng Hp Ha.
  { simpl. by rewrite decide_True by lia. }
  destruct (removeLoop_round p a rng Hp)
    as (row & col & rng2 & _ & Hrow & Hcol &
        [[Hnull ->] | (Hfilled & p1 & Hp1 & Hnew & Hsame & ->)]); [lia|..].
  - by apply IH.
  - apply IH; [done|].
    destruct (nulls_blank p p1 row col) as [_ Hn]; try done. lia.
Qed.

Lemma fairFrom_next rng : fairFrom rng → fairFrom (drawCell rng).2.
Proof.
  intros Hfair n row col Hrow Hcol.
  destruct (Hfair (S n) row col Hrow Hcol) as [m Hm]. by exists m.
Qed.

(** If some coming round draws a cell that is not empty, the loop
    reaches its next decrement. *)
Lemma removeLoop_progress (p : Grid) a m :
  grid9 p → (a > 0)%Z →
  (∀ p1 rng1, grid9 p1 → S (nonNulls p1) = nonNulls p → fairFrom rng1 →
     ∃ fuel0 res, ∀ fuel, fuel0 ≤ fuel →
       removeLoop fuel p1 (a - 1)%Z rng1 = Ret res) →
  ∀ rng, fairFrom rng →
    (let '(row, col, _) := drawCell (afterDraws m rng) in
     cellAt p row col ≠ Null) →
    ∃ fuel0 res, ∀ fuel, fuel0 ≤ fuel → removeLoop fuel p a rng = Ret res.
Proof.
  intros Hp Ha Hnext.
  induction m as [|m IHm]; intros rng Hfair Hm;
    destruct (removeLoop_round p a rng Hp Ha)
      as (row & col & rng2 & Hdraw & Hrow & Hcol &
          [[Hnull Heq] | (Hfilled & p1 & Hp1 & Hnew & Hsame & Heq)]);
    pose proof (fairFrom_next rng Hfair) as Hfair2;
    simpl in Hm; rewrite Hdraw in Hm, Hfair2; simpl in Hm, Hfair2.
  - done.
  - destruct (nulls_blank p p1 row col) as [_ Hn]; try done.
    destruct (Hnext p1 rng2) as (fuel0 & res & Hres); try done.
    exists (S fuel0), res. intros [|fuel] Hfuel; [lia|].
    rewrite Heq. apply Hres. lia.
  - destruct (IHm rng2 Hfair2 Hm) as (fuel0 & res & Hres).
    exists (S fuel0), res. intros [|fuel] Hfuel; [lia|].
    rewrite Heq. apply Hres. lia.
  - destruct (nulls_blank p p1 row col) as [_ Hn]; try done.
    destruct (Hnext p1 rng2) as (fuel0 & res & Hres); try done.
    exists (S fuel0), res. intros [|fuel] Hfuel; [lia|].
    rewrite Heq. apply Hres. lia.
Qed.

Lemma removeLoop_terminates (k : nat) : ∀ (p : Grid) a rng,
  grid9 p → fairFrom rng → Z.to_nat a = k → k ≤ nonNulls p →
  ∃ fuel0 res, ∀ fuel, fuel0 ≤ fuel → removeLoop fuel p a rng = Ret res.
Proof.
  induction k as [|k IHk]; intros p a rng Hp Hfair Hk Hle.
  { exists 0, (p, rng). intros fuel _.
    destruct fuel; simpl; by rewrite decide_False by lia. }
  assert (a > 0)%Z as Ha by lia.
  destruct (nonNulls_pos p) as (r & c & Hr & Hc & Hfilled); [lia|].
  destruct (Hfair 0 r c Hr Hc) as [m Hm]. simpl in Hm.
  apply (removeLoop_progress p a m); try done.
  - intros p1 rng1 Hp1 Hcount Hfair1. apply IHk; try done; lia.
  - destruct (drawCell (afterDraws m rng)) as [[row col] rng'].
    by simplify_eq/=.
Qed.
End deriver_correct.

(** C2: from a full 9x9 grid and a removal count within 0..81,
    [createPuzzle] returns (for a source that keeps drawing every cell) a
    9x9 grid with exactly that many empty cells, whose other cells are
    those of the solution. *)
Theorem createPuzzle_removes `{RandomSource R} (sol : Grid)
    (removalCount : Z) (rng : R) :
  random9_in_range → fairFrom rng →
  grid9 sol → fullGrid sol → (0 ≤ removalCount ≤ 81)%Z →
  ∃ fuel0 p rng',
    (∀ fuel, fuel0 ≤ fuel →
       createPuzzle fuel sol removalCount rng = Ret (p, rng')) ∧
    grid9 p ∧ nulls p = Z.to_nat removalCount ∧
    ∀ r c, cellAt p r c ≠ Null → cellAt p r c = cellAt sol r c.
Proof.
  intros Hrange Hfair Hg Hfull Hcount. unfold createPuzzle.
  pose proof (grid9_spread sol Hg) as Hcopy.
  assert (nulls (spread <$> sol) = 0) as Hnulls.
  { by apply nulls_fullGrid, fullGrid_spread. }
  pose proof (nulls_nonNulls (spread <$> sol)) as Hsum.
  destruct (removeLoop_terminates Hrange (Z.to_nat removalCount)
              (spread <$> sol) removalCount rng)
    as (fuel0 & [p rng'] & Hrun); try done; [lia|].
  exists fuel0, p, rng'. split; [done|].
  destruct (removeLoop_sound Hrange fuel0 (spread <$> sol) removalCount
              rng p rng') as (Hp & Hn & Hkept); [done|by apply Hrun|].
  split; [done|]. split; [lia|].
  intros r c Hne. by rewrite Hkept, cellAt_spread.
Qed.

(** C8 (as the code has it): nothing clamps or rejects the removal count.
    On a 9x9 grid the call returns, for a source that keeps drawing every
    cell, exactly when the count is at most the number of cells that are
    not empty; for a larger count the loop never ends, whatever is drawn. *)
Theorem createPuzzle_terminates_iff `{RandomSource R} (grid : Grid)
    (removalCount : Z) (rng : R) :
  random9_in_range → fairFrom rng → grid9 grid →
  ((removalCount ≤ Z.of_nat (nonNulls grid))%Z →
     ∃ fuel0 res, ∀ fuel, fuel0 ≤ fuel →
       createPuzzle fuel grid removalCount rng = Ret res) ∧
  ((Z.of_nat (nonNulls grid) < removalCount)%Z →
     ∀ fuel, createPuzzle fuel grid removalCount rng = OutOfFuel).
Proof.
  intros Hrange Hfair Hg. unfold createPuzzle.
  pose proof (grid9_spread grid Hg) as Hcopy.
  assert (nonNulls (spread <$> grid) = nonNulls grid) as Hcount.
  { unfold nonNulls. apply filter_length_ext.
    intros [r c] _. simpl. by rewrite cellAt_spread. }
  split.
  - intros Hle.
    apply (removeLoop_terminates Hrange (Z.to_nat removalCount)); try done.
    lia.
  - intros Hgt fuel. apply removeLoop_diverges; try done. lia.
Qed.

(** ** The concrete random source *)

Lemma counter_in_range : @random9_in_range (nat * bool) counter_source.
Proof.
  intros [k []]; cbn [random9 counter_source fst];
    apply Nat.mod_upper_bound; lia.
Qed.

Lemma counter_shuffle_permutes : @shuffle_permutes (nat * bool) counter_source.
Proof.
  intros [k b] l. cbn [shuffle counter_source fst]. unfold rotate.
  by rewrite Permutation_app_comm, take_drop.
Qed.

Lemma counter_drawCell k :
  drawCell (k, false) = ((k / 9) `mod` 9, k `mod` 9, (S k, false)).
Proof. done. Qed.

Lemma counter_afterDraws n k : afterDraws n (k, false) = (n + k, false).
Proof.
  revert k. induction n as [|n IH]; intros k; [done|].
  cbn [afterDraws]. rewrite counter_drawCell. cbn [snd]. rewrite IH.
  f_equal. lia.
Qed.

Lemma counter_fair k : fairFrom (k, false).
Proof.
  intros n row col Hrow Hcol. exists (80 * (n + k) + 9 * row + col).
  rewrite counter_afterDraws, counter_drawCell. cbn [fst].
  f_equal; lia_div.
Qed.

(** The theorems above, at the concrete source. *)
Lemma generateSudokuGrid_solved_witness :
  @shuffle_permutes (nat * bool) counter_source ∧ 82 ≤ 82 ∧
  ∃ g rng', generateSudokuGrid 82 counter0 = Ret (g, rng') ∧ solvedGrid g.
Proof.
  split; [exact counter_shuffle_permutes|]. split; [lia|].
  apply (generateSudokuGrid_solved 82 counter0);
    [exact counter_shuffle_permutes|lia].
Defined.

Lemma createPuzzle_removes_witness :
  @random9_in_range (nat * bool) counter_source ∧ fairFrom counter0 ∧
  grid9 sampleSolution ∧ fullGrid sampleSolution ∧ (0 ≤ 40 ≤ 81)%Z ∧
  ∃ fuel0 p rng',
    (∀ fuel, fuel0 ≤ fuel →
       createPuzzle fuel sampleSolution 40 counter0 = Ret (p, rng')) ∧
    grid9 p ∧ nulls p = Z.to_nat 40 ∧
    ∀ r c, cellAt p r c ≠ Null → cellAt p r c = cellAt sampleSolution r c.
Proof.
  pose proof sampleSolution_solved as (Hg & Hfull & _).
  split; [exact counter_in_range|]. split; [exact (counter_fair 0)|].
  split; [exact Hg|]. split; [exact Hfull|]. split; [lia|].
  apply (createPuzzle_removes sampleSolution 40 counter0);
    [exact counter_in_range|exact (counter_fair 0)|exact Hg|exact Hfull|lia].
Defined.

Lemma createPuzzle_terminates_iff_witness :
  @random9_in_range (nat * bool) counter_source ∧ fairFrom counter0 ∧
  grid9 sampleSolution ∧ (81 ≤ Z.of_nat (nonNulls sampleSolution))%Z ∧
  ∃ fuel0 res, ∀ fuel, fuel0 ≤ fuel →
    createPuzzle fuel sampleSolution 81 counter0 = Ret res.
Proof.
  pose proof sampleSolution_solved as (Hg & _ & _).
  assert (81 ≤ Z.of_nat (nonNulls sampleSolution))%Z as Hcount
    by (by vm_compute).
  split; [exact counter_in_range|]. split; [exact (counter_fair 0)|].
  split; [exact Hg|]. split; [exact Hcount|].
  apply (createPuzzle_terminates_iff sampleSolution 81 counter0);
    [exact counter_in_range|exact (counter_fair 0)|exact Hg|exact Hcount].
Defined.

(** C8 (as stated) fails: asked for 82 cells of a full grid, the call
    neither returns a grid nor throws, however long it runs. *)
Lemma createPuzzle_82_never_returns :
  ¬ ∃ fuel, createPuzzle fuel sampleSolution 82 counter0 ≠ OutOfFuel.
Proof.
  intros [fuel Hrun]. apply Hrun.
  pose proof sampleSolution_solved as (Hg & Hfull & _).
  unfold createPuzzle. apply (removeLoop_diverges counter_in_range).
  - by apply grid9_spread.
  - pose proof (nulls_nonNulls (spread <$> sampleSolution)) as Hsum.
    rewrite nulls_fullGrid in Hsum by by apply fullGrid_spread. lia.
Qed.

(** ** The history log *)

Lemma settle_invariant (P : Session → Prop) s o :
  P s → (∀ s', o = Ret s' → P s') → P (settle s o).
Proof. intros Hs Ho. destruct o; simpl; auto. Qed.

Lemma handleCellClick_log row col s s' :
  handleCellClick row col s = Ret s' →
  solution s' = solution s ∧ originalPuzzle s' = originalPuzzle s ∧
  puzzle s' = puzzle s ∧ history s' = history s ∧
  historyIndex s' = historyIndex s.
Proof.
  unfold handleCellClick. destruct (getCellZ _ _ _) as [c| |]; [|done..].
  rewrite bind_Ret. destruct (is_null c); intros; by simplify_eq.
Qed.

Lemma handleNumberClick_cases num s s' :
  handleNumberClick num s = Ret s' →
  s' = s ∨
  ∃ row col p snap,
    selectedCell s = Some (row, col) ∧
    getCellZ (originalPuzzle s) row col = Ret Null ∧
    puzzle s = Some p ∧ setCellZ p row col (Num num) = Ret snap ∧
    s' = {| solution := solution s; originalPuzzle := originalPuzzle s;
            puzzle := Some snap;
            history := take (historyIndex s + 1) (history s) ++ [snap];
            historyIndex :=
              length (take (historyIndex s + 1) (history s) ++ [snap]) - 1;
            selectedCell := None |}.
Proof.
  unfold handleNumberClick.
  destruct (selectedCell s) as [[row col]|]; [|intros; left; by simplify_eq].
  destruct (getCellZ _ _ _) as [c| |] eqn:Hc; [|done..]. rewrite bind_Ret.
  destruct (is_null c) eqn:E; [|intros; left; by simplify_eq].
  apply is_null_true in E as ->.
  destruct (puzzle s) as [p|]; [|done]. rewrite list_fmap_id.
  destruct (setCellZ p row col (Num num)) as [snap| |] eqn:Hset; [|done..].
  rewrite bind_Ret. intros; simplify_eq. right. by exists row, col, p, snap.
Qed.

Lemma historyInvariant_perform s e :
  historyInvariant s → historyInvariant (perform s e).
Proof.
  intros Hinv. pose proof Hinv as (Hne & Hidx & p & Hp & Hlog).
  destruct e as [row col|num| | |]; simpl.
  - apply settle_invariant; [done|]. intros s' Hs'.
    apply handleCellClick_log in Hs' as (_ & _ & Hpz & Hh & Hi).
    unfold historyInvariant. by rewrite Hpz, Hh, Hi.
  - apply settle_invariant; [done|]. intros s' Hs'.
    apply handleNumberClick_cases in Hs'
      as [->|(row & col & p0 & snap & _ & _ & _ & _ & ->)]; [done|].
    unfold historyInvariant; simpl.
    assert (length (take (historyIndex s + 1) (history s)) = historyIndex s + 1)
      as Hlen by (rewrite length_take; lia).
    split; [by destruct (take _ _)|].
    rewrite length_app, Hlen. simpl. split; [lia|].
    exists snap. split; [done|].
    rewrite lookup_app_r by lia. rewrite Hlen.
    by replace (historyIndex s + 1 + 1 - 1 - (historyIndex s + 1)) with 0 by lia.
  - unfold undo. destruct (decide (historyIndex s > 0)) as [Hpos|]; [|done].
    unfold historyInvariant; simpl. split; [done|]. split; [lia|].
    destruct (lookup_lt_is_Some_2 (history s) (historyIndex s - 1)) as [q Hq];
      [lia|]. exists q. by rewrite Hq.
  - unfold redo.
    destruct (decide (historyIndex s < length (history s) - 1)) as [Hlt|];
      [|done].
    unfold historyInvariant; simpl. split; [done|]. split; [lia|].
    destruct (lookup_lt_is_Some_2 (history s) (historyIndex s + 1)) as [q Hq];
      [lia|]. exists q. by rewrite Hq.
  - apply settle_invariant; [done|]. intros s' Hs'. unfold clearUserInputs in Hs'.
    rewrite Hp in Hs'. destruct (mapIndexed _ _ _) as [cleared| |]; [|done..].
    rewrite bind_Ret in Hs'. simplify_eq. unfold historyInvariant; simpl.
    split; [done|]. split; [lia|]. by exists cleared.
Qed.

Lemma historyInvariant_performAll events s :
  historyInvariant s → historyInvariant (performAll s events).
Proof.
  revert s. induction events as [|e events IH]; intros s Hs; [done|].
  simpl. by apply IH, historyInvariant_perform.
Qed.

(** ** A session that has just started *)

Lemma tidy_fullGrid (g : Grid) : grid9 g → fullGrid g → tidy g.
Proof.
  intros Hg Hfull. split; [done|]. intros r c Hr Hc.
  by destruct (Hfull r c Hr Hc) as (n & -> & _).
Qed.

Lemma spread_tidy (g : Grid) : tidy g → spread <$> g = g.
Proof.
  intros [Hg Hdef]. apply grid9_ext; try done; [by apply grid9_spread|].
  intros r c _ _. apply cellAt_spread.
Qed.

Lemma createPuzzle_returned `{RandomSource R} fuel (g : Grid) n (rng : R)
    p rng' :
  random9_in_range → tidy g → createPuzzle fuel g n rng = Ret (p, rng') →
  tidy p ∧ nulls p = nulls g + Z.to_nat n ∧
  ∀ r c, cellAt p r c ≠ Null → cellAt p r c = cellAt g r c.
Proof.
  intros Hrange Htidy Hrun. unfold createPuzzle in Hrun.
  rewrite spread_tidy in Hrun by done. destruct Htidy as [Hg Hdef].
  destruct (removeLoop_sound Hrange fuel g n rng p rng' Hg Hrun)
    as (Hp & Hn & Hkept).
  split; [|done]. split; [done|]. intros r c Hr Hc Hundef.
  apply (Hdef r c Hr Hc). rewrite <-Hkept; [done|]. by rewrite Hundef.
Qed.

Lemma startSession_fresh `{RandomSource R} fuel (rng : R) s rng' :
  shuffle_permutes → random9_in_range →
  startSession fuel rng = Ret (s, rng') →
  ∃ sol orig, s = newSession sol orig ∧
    grid9 sol ∧ fullGrid sol ∧ noClash sol ∧ tidy orig ∧ nulls orig = 40 ∧
    ∀ r c, cellAt orig r c ≠ Null → cellAt orig r c = cellAt sol r c.
Proof.
  intros Hshuffle Hrange Hrun. unfold startSession in Hrun.
  destruct (generateSudokuGrid fuel rng) as [[sol rng1]| |] eqn:Hgen; [|done..].
  rewrite bind_Ret in Hrun.
  destruct (createPuzzle fuel sol 40 rng1) as [[orig rng2]| |] eqn:Hcreate;
    [|done..].
  rewrite bind_Ret in Hrun.
  destruct (generateSudokuGrid_returned fuel rng sol rng1 Hshuffle Hgen)
    as (Hg & Hfull & Hclash).
  destruct (createPuzzle_returned fuel sol 40 rng1 orig rng2 Hrange)
    as (Htidy & Hn & Hkept); [by apply tidy_fullGrid|done|].
  simplify_eq. exists sol, orig. rewrite (nulls_fullGrid sol) in Hn by done.
  do 5 (split; [done|]). split; [lia|done].
Qed.

Lemma historyInvariant_newSession sol orig :
  tidy orig → historyInvariant (newSession sol orig).
Proof.
  intros Htidy. unfold historyInvariant; simpl.
  split; [done|]. split; [lia|]. exists orig. by rewrite spread_tidy.
Qed.

(** C3: from a session that has just started, after any sequence of cell
    selections, entered values, undos and redos (and clearings), the log
    is not empty, the cursor is an index of it, and the snapshot under the
    cursor is the current puzzle. *)
Theorem history_invariant `{RandomSource R} fuel (rng : R) s rng'
    (events : list event) :
  shuffle_permutes → random9_in_range →
  startSession fuel rng = Ret (s, rng') →
  historyInvariant (performAll s events).
Proof.
  intros Hshuffle Hrange Hstart.
  destruct (startSession_fresh fuel rng s rng' Hshuffle Hrange Hstart)
    as (sol & orig & -> & _ & _ & _ & Htidy & _).
  by apply historyInvariant_performAll, historyInvariant_newSession.
Qed.

Lemma started_eq : startSession 100 counter0 = Ret started.
Proof. by vm_compute. Qed.

Lemma history_invariant_witness :
  @shuffle_permutes (nat * bool) counter_source ∧
  @random9_in_range (nat * bool) counter_source ∧
  startSession 100 counter0 = Ret (started.1, started.2) ∧
  historyInvariant
    (performAll started.1
       [SelectCell 0 0; EnterValue 5; SelectCell 0 1; EnterValue 6; Undo;
        Undo; Redo; SelectCell 0 2; EnterValue 7; Redo]).
Proof.
  split; [exact counter_shuffle_permutes|].
  split; [exact counter_in_range|]. split; [exact started_eq|].
  apply (history_invariant 100 counter0 started.1 started.2);
    [exact counter_shuffle_permutes|exact counter_in_range|exact started_eq].
Defined.

(** ** Selecting a cell and entering a value *)

Lemma getCellZ_grid9 (g : Grid) row col :
  grid9 g → (0 ≤ row < 9)%Z →
  getCellZ g row col =
    Ret (if decide (0 ≤ col)%Z then cellAt g (Z.to_nat row) (Z.to_nat col)
         else Undefined).
Proof.
  intros Hg Hrow. unfold getCellZ, cellAt. rewrite decide_True by lia.
  destruct (grid9_lookup g (Z.to_nat row) Hg) as (r & -> & _); [lia|done].
Qed.

Lemma getCellZ_row_range (g : Grid) row col v :
  grid9 g → getCellZ g row col = Ret v → (0 ≤ row < 9)%Z.
Proof.
  intros [Hlen _]. unfold getCellZ.
  destruct (decide (0 ≤ row)%Z); [|done].
  destruct (g !! Z.to_nat row) eqn:E; [|done].
  apply lookup_lt_Some in E. lia.
Qed.

Lemma setCellZ_grid9 (g : Grid) row col v :
  grid9 g → (0 ≤ row < 9)%Z → ∃ g', setCellZ g row col v = Ret g'.
Proof.
  intros Hg Hrow. unfold setCellZ. rewrite decide_True by lia.
  destruct (grid9_lookup g (Z.to_nat row) Hg) as (r & -> & _); [lia|].
  by eexists.
Qed.

(** C4: entering a value after an undo keeps the log up to the cursor,
    appends the new snapshot and puts the cursor on it; what came after the
    cursor is gone. From a log [S0; S1; S2] with the cursor on 2 the
    result is [S0; S1; S3] with the cursor on 2. *)
Theorem enterValue_after_undo (s : Session) (row col num : Z) :
  grid9 (originalPuzzle s) → Forall grid9 (history s) →
  0 < historyIndex s < length (history s) →
  selectedCell s = Some (row, col) →
  getCellZ (originalPuzzle s) row col = Ret Null →
  ∃ prev snap s',
    history s !! (historyIndex s - 1) = Some prev ∧
    setCellZ prev row col (Num num) = Ret snap ∧
    handleNumberClick num (undo s) = Ret s' ∧
    history s' = take (historyIndex s) (history s) ++ [snap] ∧
    length (history s') = historyIndex s + 1 ∧
    historyIndex s' = historyIndex s ∧
    history s' !! historyIndex s' = Some snap ∧
    puzzle s' = Some snap ∧ selectedCell s' = None.
Proof.
  intros Horig Hlog [Hpos Hidx] Hsel Hcell.
  destruct (lookup_lt_is_Some_2 (history s) (historyIndex s - 1))
    as [prev Hprev]; [lia|].
  assert (grid9 prev) as Hgprev.
  { rewrite list.Forall_forall in Hlog. apply Hlog.
    by eapply list_elem_of_lookup_2. }
  pose proof (getCellZ_row_range _ _ _ _ Horig Hcell) as Hrow.
  destruct (setCellZ_grid9 prev row col (Num num) Hgprev Hrow) as [snap Hsnap].
  assert (length (take (historyIndex s) (history s)) = historyIndex s) as Hlen
    by (rewrite length_take; lia).
  exists prev, snap. eexists. split; [done|]. split; [done|].
  unfold undo. rewrite decide_True by lia.
  unfold handleNumberClick; simpl. rewrite Hsel, Hcell, bind_Ret; simpl.
  rewrite Hprev, list_fmap_id, Hsnap, bind_Ret.
  replace (historyIndex s - 1 + 1) with (historyIndex s) by lia.
  split; [done|]. simpl. rewrite length_app, Hlen. simpl.
  replace (historyIndex s + 1 - 1) with (historyIndex s) by lia.
  do 3 (split; [done|]). split; [|done].
  rewrite lookup_app_r by lia. rewrite Hlen.
  by replace (historyIndex s - historyIndex s) with 0 by lia.
Qed.

(** C9 (as the code has it): on a 9x9 puzzle, selecting a given cell, or a
    column outside 0..8 in a row inside 0..8, returns without changing the
    state; selecting a row outside 0..8 throws a [TypeError]. *)
Theorem handleCellClick_invalid (s : Session) (row col : Z) :
  grid9 (originalPuzzle s) →
  ((0 ≤ row < 9)%Z →
     givenCell (originalPuzzle s) row col ∨ (col < 0 ∨ 9 ≤ col)%Z →
     handleCellClick row col s = Ret s) ∧
  ((row < 0 ∨ 9 ≤ row)%Z → handleCellClick row col s = TypeError).
Proof.
  intros Hg. split.
  - intros Hrow Hinvalid. unfold handleCellClick.
    rewrite getCellZ_grid9, bind_Ret by done.
    destruct (decide (0 ≤ col)%Z) as [Hcol|Hcol]; [|done].
    destruct Hinvalid as [(_ & _ & Hgiven) | [Hneg | Hbig]]; [|lia|].
    + apply is_null_false in Hgiven. by rewrite Hgiven.
    + destruct (grid9_lookup _ (Z.to_nat row) Hg) as (r & Hr & Hlen); [lia|].
      unfold cellAt, arr_get. rewrite Hr.
      by rewrite lookup_ge_None_2 by lia.
  - intros Hrow. unfold handleCellClick, getCellZ.
    destruct (decide (0 ≤ row)%Z); [|done].
    destruct Hg as [Hlen _]. by rewrite lookup_ge_None_2 by lia.
Qed.

(** C9 (as stated) fails: a click on row 9 throws. *)
Lemma handleCellClick_row_9_throws :
  handleCellClick 9 0 started.1 = TypeError.
Proof. done. Qed.

Lemma handleCellClick_invalid_witness :
  grid9 (originalPuzzle started.1) ∧ (0 ≤ 4 < 9)%Z ∧
  givenCell (originalPuzzle started.1) 4 4 ∧
  handleCellClick 4 4 started.1 = Ret started.1.
Proof.
  assert (grid9 (originalPuzzle started.1)) as Hg
    by (by apply (bool_decide_unpack _); vm_compute).
  assert (givenCell (originalPuzzle started.1) 4 4) as Hgiven
    by (split; [lia|]; split; [lia|]; by vm_compute).
  split; [exact Hg|]. split; [lia|]. split; [exact Hgiven|].
  apply (handleCellClick_invalid started.1 4 4 Hg); [lia|by left].
Defined.

(** The example of C4: a log of three snapshots with the cursor on the
    last one. *)
Lemma enterValue_after_undo_witness :
  let s := performAll started.1
             [SelectCell 0 0; EnterValue 5; SelectCell 0 1; EnterValue 6;
              SelectCell 0 2] in
  ∃ S0 S1 S2 S3 s',
    history s = [S0; S1; S2] ∧ historyIndex s = 2 ∧
    handleNumberClick 7 (undo s) = Ret s' ∧
    history s' = [S0; S1; S3] ∧ historyIndex s' = 2 ∧ puzzle s' = Some S3.
Proof.
  intros s.
  destruct (enterValue_after_undo s 0 2 7)
    as (prev & snap & s' & _ & _ & Hrun & Hlog & _ & Hidx & _ & Hpuzzle & _).
  - by apply (bool_decide_unpack _); vm_compute.
  - by apply (bool_decide_unpack _); vm_compute.
  - by vm_compute; lia.
  - done.
  - done.
  - destruct (history s) as [|S0 [|S1 [|S2 [|]]]] eqn:Hs;
      try (by vm_compute in Hs).
    exists S0, S1, S2, snap, s'. by repeat split.
Defined.

(** ** [createPuzzle] and the arrays it is given *)

Lemma copyRows_spec (h : Heap.heap) rows h' ls :
  Heap.copyRows h rows = Ret (h', ls) →
  Heap.unchanged h h' ∧ length h ≤ length h' ∧
  Forall (λ l, length h ≤ l < length h') ls.
Proof.
  revert h h' ls. induction rows as [|l rows IH]; intros h h' ls Hrun.
  { simpl in Hrun. simplify_eq. split; [by intros ??|]. split; [lia|constructor]. }
  simpl in Hrun. destruct (h !! l) as [[cells|]|] eqn:Hl; [|done..].
  destruct (Heap.copyRows (h ++ [Heap.RowArray (spread cells)]) rows)
    as [[h2 ls2]| |] eqn:Hrest; [|done..].
  rewrite bind_Ret in Hrun. simplify_eq.
  destruct (IH _ _ _ Hrest) as (Hsame & Hlen & Hnew).
  rewrite length_app in Hlen, Hnew. simpl in Hlen, Hnew.
  split; [|split; [lia|]].
  - intros l0 o Ho. apply Hsame. rewrite lookup_app_l; [done|].
    by eapply lookup_lt_Some.
  - constructor; [lia|]. revert Hnew. apply List.Forall_impl. intros; lia.
Qed.

Lemma copyGrid_spec (h : Heap.heap) grid h1 puzzle :
  Heap.copyGrid h grid = Ret (h1, puzzle) → Heap.loopInvariant h puzzle h1.
Proof.
  unfold Heap.copyGrid. destruct (h !! grid) as [[|rows]|]; [done| |done].
  destruct (Heap.copyRows h rows) as [[h' ls]| |] eqn:Hcopy; [|done..].
  rewrite bind_Ret. unfold Heap.alloc. intros ?; simplify_eq.
  destruct (copyRows_spec _ _ _ _ Hcopy) as (Hsame & Hlen & Hnew).
  split; [|split; [done|]].
  - intros l o Ho. rewrite lookup_app_l; [by apply Hsame|].
    apply Hsame in Ho. by eapply lookup_lt_Some.
  - exists ls. split; [|done]. by rewrite list_lookup_middle.
Qed.

Lemma round_invariant `{RandomSource R} (h0 : Heap.heap) puzzle
    (st st' : Heap.heap * Z * R) :
  Heap.round puzzle st = Ret st' →
  Heap.loopInvariant h0 puzzle st.1.1 → Heap.loopInvariant h0 puzzle st'.1.1.
Proof.
  destruct st as [[h a] rng]. unfold Heap.round.
  destruct (random9 rng) as [row rng1]. destruct (random9 rng1) as [col rng2].
  intros Hrun (Hsame & Hfresh & rows & Hpuzzle & Hrows). simpl in *.
  unfold Heap.rowOf in Hrun. rewrite Hpuzzle in Hrun.
  destruct (rows !! row) as [l|] eqn:Hl; [|done].
  destruct (h !! l) as [[cells|]|] eqn:Hcells; [|done..].
  rewrite bind_Ret in Hrun.
  destruct (is_null (arr_get cells col)); simplify_eq; simpl.
  { split; [done|]. split; [done|]. by exists rows. }
  rewrite list.Forall_forall in Hrows.
  assert (length h0 ≤ l < puzzle) as Hrange.
  { apply Hrows. by eapply list_elem_of_lookup_2. }
  split; [|split; [done|]].
  - intros l0 o Ho. rewrite list_lookup_insert_ne; [by apply Hsame|].
    apply lookup_lt_Some in Ho. lia.
  - exists rows. split; [|by apply list.Forall_forall].
    rewrite list_lookup_insert_ne; [done|lia].
Qed.

Lemma removeLoop_invariant `{RandomSource R} (h0 : Heap.heap) puzzle fuel
    (st st' : Heap.heap * Z * R) :
  Heap.removeLoop fuel puzzle st = Ret st' →
  Heap.loopInvariant h0 puzzle st.1.1 → Heap.loopInvariant h0 puzzle st'.1.1.
Proof.
  revert st. induction fuel as [|fuel IH]; intros st; simpl;
    destruct (decide (st.1.2 > 0)%Z); try done; try (by intros; simplify_eq).
  destruct (Heap.round puzzle st) as [st1| |] eqn:Hround; [|done..].
  rewrite bind_Ret. intros Hrun Hinv.
  by eapply IH, round_invariant.
Qed.

Lemma afterRounds_invariant `{RandomSource R} (h0 : Heap.heap) puzzle n
    (st st' : Heap.heap * Z * R) :
  Heap.afterRounds n puzzle st = Ret st' →
  Heap.loopInvariant h0 puzzle st.1.1 → Heap.loopInvariant h0 puzzle st'.1.1.
Proof.
  revert st. induction n as [|n IH]; intros st; simpl;
    [by intros; simplify_eq|].
  destruct (decide (st.1.2 > 0)%Z); [|by intros; simplify_eq].
  destruct (Heap.round puzzle st) as [st1| |] eqn:Hround; [|done..].
  rewrite bind_Ret. intros Hrun Hinv.
  by eapply IH, round_invariant.
Qed.

Lemma viewGrid_unchanged (h h' : Heap.heap) grid g :
  Heap.unchanged h h' → Heap.viewGrid h grid = Some g →
  Heap.viewGrid h' grid = Some g.
Proof.
  intros Hsame. unfold Heap.viewGrid.
  destruct (h !! grid) as [[|rows]|] eqn:Hgrid; [done| |done].
  rewrite (Hsame _ _ Hgrid). rewrite !mapM_Some.
  apply Forall2_impl. intros l cells Hl.
  destruct (h !! l) as [[cs|]|] eqn:E; [|done..].
  by rewrite (Hsame _ _ E).
Qed.

(** C10: [createPuzzle] leaves every array that existed before the call
    as it was, so the grid it was given reads the same afterwards; this
    holds after every round of the loop, also in a run that does not end.
    The grid it returns is a new array. *)
Theorem createPuzzle_frame `{RandomSource R} (h : Heap.heap) (grid : nat) :
  (∀ fuel difficulty (rng : R) puzzle h' rng',
     Heap.createPuzzle fuel h grid difficulty rng = Ret (puzzle, h', rng') →
     Heap.unchanged h h' ∧ length h ≤ puzzle ∧
     ∀ g, Heap.viewGrid h grid = Some g → Heap.viewGrid h' grid = Some g) ∧
  (∀ h1 puzzle n difficulty (rng : R) st,
     Heap.copyGrid h grid = Ret (h1, puzzle) →
     Heap.afterRounds n puzzle (h1, difficulty, rng) = Ret st →
     Heap.unchanged h st.1.1).
Proof.
  split.
  - intros fuel d rng puzzle h' rng' Hrun. unfold Heap.createPuzzle in Hrun.
    destruct (Heap.copyGrid h grid) as [[h1 p]| |] eqn:Hcopy; [|done..].
    rewrite bind_Ret in Hrun.
    destruct (Heap.removeLoop fuel p (h1, d, rng)) as [[[h2 a] r2]| |] eqn:Hloop;
      [|done..].
    rewrite bind_Ret in Hrun.
    destruct (removeLoop_invariant h p fuel _ _ Hloop (copyGrid_spec _ _ _ _ Hcopy))
      as (Hsame & Hfresh & _).
    simplify_eq/=.
    split; [done|]. split; [done|]. intros g. by apply viewGrid_unchanged.
  - intros h1 puzzle n d rng st Hcopy Hrun.
    by destruct (afterRounds_invariant h puzzle n _ _ Hrun
                   (copyGrid_spec _ _ _ _ Hcopy)) as (Hsame & _).
Qed.

Lemma createPuzzle_frame_witness :
  let h := (Heap.store sampleSolution).1 in
  let grid := (Heap.store sampleSolution).2 in
  Heap.viewGrid h grid = Some sampleSolution ∧
  ∃ puzzle h' rng',
    Heap.createPuzzle 100 h grid 40 counter0 = Ret (puzzle, h', rng') ∧
    Heap.unchanged h h' ∧ length h ≤ puzzle ∧
    Heap.viewGrid h' grid = Some sampleSolution.
Proof.
  intros h grid.
  assert (Heap.viewGrid h grid = Some sampleSolution) as Hview
    by (by vm_compute).
  split; [exact Hview|].
  destruct (Heap.createPuzzle 100 h grid 40 counter0)
    as [[[puzzle h'] rng']| |] eqn:Hrun; [|by vm_compute in Hrun..].
  exists puzzle, h', rng'. split; [done|].
  destruct (createPuzzle_frame h grid) as [Hreturned _].
  destruct (Hreturned 100 40%Z counter0 puzzle h' rng' Hrun)
    as (Hsame & Hfresh & Hgrid).
  split; [exact Hsame|]. split; [exact Hfresh|]. exact (Hgrid _ Hview).
Defined.

(** ** The grids as values are what the heap holds *)

Lemma viewGrid_rows (h : Heap.heap) grid g :
  Heap.viewGrid h grid = Some g ↔
  ∃ rows, h !! grid = Some (Heap.GridArray rows) ∧
    Forall2 (λ l cells, h !! l = Some (Heap.RowArray cells)) rows g.
Proof.
  unfold Heap.viewGrid. split.
  - destruct (h !! grid) as [[|rows]|]; [done| |done].
    intros Hrows%mapM_Some. exists rows. split; [done|].
    revert Hrows. apply Forall2_impl. intros l cells Hl.
    by destruct (h !! l) as [[cs|]|]; simplify_eq.
  - intros (rows & -> & Hrows). apply mapM_Some.
    revert Hrows. apply Forall2_impl. by intros l cells ->.
Qed.

Lemma holds_viewGrid (h : Heap.heap) puzzle g :
  Heap.holds h puzzle g → Heap.viewGrid h puzzle = Some g.
Proof. intros (rows & Hp & _ & Hrows). apply viewGrid_rows. eauto. Qed.

Lemma copyRows_refines (h0 : Heap.heap) rows (g : Grid) :
  Forall2 (λ l cells, h0 !! l = Some (Heap.RowArray cells)) rows g →
  ∀ h, Heap.unchanged h0 h →
  ∃ h' ls, Heap.copyRows h rows = Ret (h', ls) ∧ Heap.unchanged h h' ∧
    NoDup ls ∧ Forall (λ l, length h ≤ l) ls ∧
    Forall2 (λ l cells, h' !! l = Some (Heap.RowArray cells)) ls (spread <$> g).
Proof.
  induction 1 as [|l cells rows g Hl Hrows IH]; intros h Hsame.
  { exists h, []. split; [done|]. split; [by intros ??|].
    split; [constructor|]. split; constructor. }
  simpl. rewrite (Hsame _ _ Hl).
  destruct (IH (h ++ [Heap.RowArray (spread cells)]))
    as (h' & ls & -> & Hsame' & Hnd & Hfresh & Hcopy).
  { intros l0 o Ho. apply Hsame in Ho. rewrite lookup_app_l; [done|].
    by eapply lookup_lt_Some. }
  rewrite bind_Ret. exists h', (length h :: ls). split; [done|].
  rewrite length_app in Hfresh. simpl in Hfresh.
  rewrite list.Forall_forall in Hfresh.
  split; [|split; [|split]].
  - intros l0 o Ho. apply Hsame'. rewrite lookup_app_l; [done|].
    by eapply lookup_lt_Some.
  - constructor; [|done]. intros Hin. apply Hfresh in Hin. lia.
  - constructor; [lia|]. apply list.Forall_forall. intros l0 Hl0.
    apply Hfresh in Hl0. lia.
  - constructor; [|done]. apply Hsame'. by rewrite list_lookup_middle.
Qed.

Lemma copyGrid_refines (h : Heap.heap) grid (g : Grid) :
  Heap.viewGrid h grid = Some g →
  ∃ h1 puzzle, Heap.copyGrid h grid = Ret (h1, puzzle) ∧
    Heap.holds h1 puzzle (spread <$> g).
Proof.
  intros (rows & Hgrid & Hrows)%viewGrid_rows. unfold Heap.copyGrid.
  rewrite Hgrid.
  destruct (copyRows_refines h rows g Hrows h)
    as (h' & ls & -> & Hsame & Hnd & Hfresh & Hcopy); [by intros ??|].
  rewrite bind_Ret. unfold Heap.alloc. do 2 eexists. split; [done|].
  exists ls. split; [by rewrite list_lookup_middle|]. split; [done|].
  revert Hcopy. apply Forall2_impl. intros l cells Hl.
  rewrite lookup_app_l; [done|]. by eapply lookup_lt_Some.
Qed.

Lemma holds_row (h : Heap.heap) puzzle (g : Grid) row :
  Heap.holds h puzzle g →
  match g !! row with
  | Some cells => ∃ l, Heap.rowOf h puzzle row = Ret (l, cells)
  | None => Heap.rowOf h puzzle row = TypeError
  end.
Proof.
  intros (rows & Hp & _ & Hrows). unfold Heap.rowOf. rewrite Hp.
  destruct (g !! row) as [cells|] eqn:Hrow.
  - destruct (Forall2_lookup_r _ _ _ _ _ Hrows Hrow) as (l & -> & ->). eauto.
  - apply lookup_ge_None in Hrow. rewrite <-(Forall2_length Hrows) in Hrow.
    by rewrite lookup_ge_None_2.
Qed.

Lemma holds_write (h : Heap.heap) puzzle (g : Grid) row l cells cells' :
  Heap.holds h puzzle g → Heap.rowOf h puzzle row = Ret (l, cells) →
  Heap.holds (<[l := Heap.RowArray cells']> h) puzzle (<[row := cells']> g).
Proof.
  intros (rows & Hp & Hnd & Hrows) Hrow. unfold Heap.rowOf in Hrow.
  rewrite Hp in Hrow. destruct (rows !! row) as [l0|] eqn:Hl0; [|done].
  destruct (h !! l0) as [[cs|]|] eqn:Hcs; simplify_eq.
  assert (l ≠ puzzle) as Hne by (intros ->; congruence).
  exists rows. split; [by rewrite list_lookup_insert_ne|]. split; [done|].
  apply Forall2_same_length_lookup. split.
  { rewrite length_insert. by eapply Forall2_length. }
  intros i l' cs' Hl' Hcs'.
  destruct (decide (i = row)) as [->|Hi].
  - simplify_eq. rewrite list_lookup_insert_eq in Hcs'.
    + simplify_eq. rewrite list_lookup_insert_eq; [done|].
      by eapply lookup_lt_Some.
    + rewrite <-(Forall2_length Hrows). by eapply lookup_lt_Some.
  - rewrite list_lookup_insert_ne in Hcs' by done.
    rewrite list_lookup_insert_ne.
    + exact (Forall2_lookup_lr _ _ _ _ _ _ Hrows Hl' Hcs').
    + intros ->. apply Hi. symmetry. by eapply NoDup_lookup.
Qed.

Lemma removeLoop_refines `{RandomSource R} fuel (h : Heap.heap) puzzle
    (g : Grid) a (rng : R) :
  Heap.holds h puzzle g →
  match removeLoop fuel g a rng with
  | Ret (p, rng') =>
      ∃ h' a', Heap.removeLoop fuel puzzle (h, a, rng) = Ret (h', a', rng') ∧
        Heap.holds h' puzzle p
  | TypeError => Heap.removeLoop fuel puzzle (h, a, rng) = TypeError
  | OutOfFuel => Heap.removeLoop fuel puzzle (h, a, rng) = OutOfFuel
  end.
Proof.
  revert h g a rng. induction fuel as [|fuel IH]; intros h g a rng Hholds;
    simpl; destruct (decide (a > 0)%Z); try done; try (by exists h, a).
  destruct (random9 rng) as [row rng1]. destruct (random9 rng1) as [col rng2].
  pose proof (holds_row h puzzle g row Hholds) as Hrow.
  unfold getCell, setCell. destruct (g !! row) as [cells|]; simpl.
  2: { by rewrite Hrow. }
  destruct Hrow as [l Hrow]. rewrite Hrow, bind_Ret.
  destruct (is_null (arr_get cells col)); rewrite bind_Ret.
  - by apply IH.
  - apply IH. by eapply holds_write.
Qed.

(** [createPuzzle] on grids as values computes what [createPuzzle] on the
    heap leaves at the location it returns, and the two throw or run on
    together. *)
Lemma createPuzzle_refines `{RandomSource R} fuel (h : Heap.heap) grid
    (g : Grid) difficulty (rng : R) :
  Heap.viewGrid h grid = Some g →
  match createPuzzle fuel g difficulty rng with
  | Ret (p, rng') =>
      ∃ puzzle h',
        Heap.createPuzzle fuel h grid difficulty rng = Ret (puzzle, h', rng') ∧
        Heap.viewGrid h' puzzle = Some p
  | TypeError => Heap.createPuzzle fuel h grid difficulty rng = TypeError
  | OutOfFuel => Heap.createPuzzle fuel h grid difficulty rng = OutOfFuel
  end.
Proof.
  intros Hview. unfold createPuzzle, Heap.createPuzzle.
  destruct (copyGrid_refines h grid g Hview) as (h1 & puzzle & -> & Hholds).
  rewrite bind_Ret.
  pose proof (removeLoop_refines fuel h1 puzzle (spread <$> g) difficulty rng
                Hholds) as Hloop.
  destruct (removeLoop fuel (spread <$> g) difficulty rng) as [[p rng']| |].
  - destruct Hloop as (h' & a' & -> & Hp). rewrite bind_Ret.
    exists puzzle, h'. split; [done|]. by apply holds_viewGrid.
  - by rewrite Hloop.
  - by rewrite Hloop.
Qed.

(** ** Given cells *)

Lemma mapIndexed_Ret {A B} (f : nat → A → outcome B) (g : nat → A → B) i l :
  (∀ k x, l !! k = Some x → f (i + k) x = Ret (g (i + k) x)) →
  mapIndexed f i l = Ret (imap (λ k, g (i + k)) l).
Proof.
  revert i. induction l as [|x l IH]; intros i Hf; [done|].
  assert (f i x = Ret (g i x)) as Hx.
  { specialize (Hf 0 x eq_refl). by rewrite Nat.add_0_r in Hf. }
  simpl. rewrite Hx, bind_Ret, (IH (S i)), bind_Ret.
  - rewrite Nat.add_0_r. do 2 f_equal. apply imap_ext. intros k y _. simpl.
    f_equal. lia.
  - intros k y Hy. replace (S i + k) with (i + S k) by lia. by apply Hf.
Qed.

Lemma tidy_lookup (g : Grid) r c :
  tidy g → r < 9 → c < 9 →
  ∃ row, g !! r = Some row ∧ row !! c = Some (cellAt g r c) ∧
    cellAt g r c ≠ Hole.
Proof.
  intros [Hg Hdef] Hr Hc. specialize (Hdef r c Hr Hc).
  destruct (grid9_lookup g r Hg Hr) as (row & Hrow & Hlen).
  exists row. split; [done|]. unfold cellAt, arr_get in *. rewrite Hrow in *.
  destruct (lookup_lt_is_Some_2 row c) as [x Hx]; [lia|]. rewrite Hx in *.
  by destruct x.
Qed.

Lemma mapIndexed_0 {A B} (f : nat → A → outcome B) (g : nat → A → B) l :
  (∀ k x, l !! k = Some x → f k x = Ret (g k x)) →
  mapIndexed f 0 l = Ret (imap g l).
Proof. intros Hf. by rewrite (mapIndexed_Ret f g 0 l). Qed.

Lemma clearUserInputs_spec (s : Session) p :
  tidy (originalPuzzle s) → puzzle s = Some p → snapshotOk (originalPuzzle s) p →
  clearUserInputs s =
    Ret {| solution := solution s; originalPuzzle := originalPuzzle s;
           puzzle := Some (originalPuzzle s);
           history := [originalPuzzle s]; historyIndex := 0;
           selectedCell := selectedCell s |}.
Proof.
  intros Horig Hp [Htidy Hgivens]. unfold clearUserInputs. rewrite Hp.
  set (keep := λ (ri ci : nat) (c : cell),
    match c with
    | Hole => Hole
    | _ => if is_null (cellAt (originalPuzzle s) ri ci) then Null else c
    end).
  pose proof Htidy as [[Hlen Hrows] Hdef].
  rewrite (mapIndexed_0 _ (λ ri row, imap (keep ri) row)).
  2: { intros ri row Hrow. apply mapIndexed_0. intros ci c Hc.
       apply lookup_lt_Some in Hrow.
       destruct c; try done;
         by rewrite getCell_grid9, bind_Ret by (apply Horig || lia). }
  rewrite bind_Ret.
  assert (imap (λ ri row, imap (keep ri) row) p = originalPuzzle s) as ->; [|done].
  apply grid9_ext; [apply Horig| |apply Horig|].
  - split; [by rewrite length_imap|]. apply list.Forall_forall.
    intros row' (ri & row & -> & Hrow)%elem_of_lookup_imap.
    rewrite length_imap. by eapply Forall_lookup_1 in Hrows.
  - intros r c Hr Hc.
    destruct (tidy_lookup p r c Htidy Hr Hc) as (row & Hrow & Hcell & Hhole).
    unfold cellAt at 1, arr_get. rewrite list_lookup_imap, Hrow. simpl.
    rewrite list_lookup_imap, Hcell. simpl.
    specialize (Hdef r c Hr Hc). specialize (Hgivens r c Hr Hc). unfold keep.
    destruct (is_null (cellAt (originalPuzzle s) r c)) eqn:E.
    + apply is_null_true in E. rewrite E. by destruct (cellAt p r c).
    + apply is_null_false in E. rewrite <-Hgivens by done.
      by destruct (cellAt p r c).
Qed.

Lemma cellAt_Null_col (g : Grid) r c :
  grid9 g → r < 9 → cellAt g r c = Null → c < 9.
Proof.
  intros Hg Hr. destruct (grid9_lookup g r Hg Hr) as (row & Hrow & Hlen).
  unfold cellAt, arr_get. rewrite Hrow.
  destruct (row !! c) as [x|] eqn:E; [|done].
  apply lookup_lt_Some in E. lia.
Qed.

Lemma setCellZ_nat (g : Grid) row col v :
  (0 ≤ row)%Z → (0 ≤ col)%Z →
  setCellZ g row col v = setCell g (Z.to_nat row) (Z.to_nat col) v.
Proof.
  intros Hrow Hcol. unfold setCellZ, setCell. rewrite decide_True by done.
  destruct (g !! Z.to_nat row); [|done]. by rewrite decide_True.
Qed.

Lemma snapshotOk_enter (orig p snap : Grid) row col num :
  tidy orig → snapshotOk orig p →
  getCellZ orig row col = Ret Null →
  setCellZ p row col (Num num) = Ret snap →
  snapshotOk orig snap.
Proof.
  intros [Horig _] [[Hp Hdef] Hgivens] Hcell Hset.
  pose proof (getCellZ_row_range _ _ _ _ Horig Hcell) as Hrow.
  rewrite getCellZ_grid9 in Hcell by done.
  destruct (decide (0 ≤ col)%Z) as [Hcol|]; [|by simplify_eq].
  assert (cellAt orig (Z.to_nat row) (Z.to_nat col) = Null) as Hnull
    by by simplify_eq.
  assert (Z.to_nat col < 9) as Hcol9.
  { eapply (cellAt_Null_col orig (Z.to_nat row)); [done|lia|done]. }
  rewrite setCellZ_nat in Hset by lia.
  destruct (setCell_grid9 p (Z.to_nat row) (Z.to_nat col) (Num num))
    as (g' & Hg' & Hgrid & Hnew & Hsame); [done|lia|done|done|].
  rewrite Hg' in Hset. simplify_eq.
  split; [split; [done|]|]; intros r c Hr Hc.
  - destruct (decide (r = Z.to_nat row ∧ c = Z.to_nat col)) as [[-> ->]|Hne].
    + by rewrite Hnew.
    + rewrite Hsame by done. by apply Hdef.
  - intros Hgiven.
    destruct (decide (r = Z.to_nat row ∧ c = Z.to_nat col)) as [[-> ->]|Hne].
    + done.
    + rewrite Hsame by done. by apply Hgivens.
Qed.

Lemma sessionOk_puzzle (s : Session) :
  sessionOk s →
  ∃ p, puzzle s = Some p ∧ snapshotOk (originalPuzzle s) p.
Proof.
  intros (_ & _ & _ & _ & Hlog & _ & _ & p & Hp & Hidx).
  exists p. split; [done|]. by eapply Forall_lookup_1 in Hlog.
Qed.

Lemma sessionOk_perform (s : Session) e : sessionOk s → sessionOk (perform s e).
Proof.
  intros Hok. pose proof (historyInvariant_perform s e) as Hinv.
  pose proof (sessionOk_puzzle s Hok) as (p & Hp & Hsnap).
  destruct Hok as (Hsol & Hfull & Horig & Hkept & Hlog & Hhist).
  specialize (Hinv Hhist).
  destruct e as [row col|num| | |]; simpl in *.
  - destruct (handleCellClick row col s) as [s'| |] eqn:E; simpl in *;
      try done.
    apply handleCellClick_log in E as (E1 & E2 & _ & E4 & _).
    unfold sessionOk. by rewrite E1, E2, E4.
  - destruct (handleNumberClick num s) as [s'| |] eqn:E; simpl in *; try done.
    apply handleNumberClick_cases in E
      as [->|(row & col & p0 & snap & _ & Hcell & Hp0 & Hset & ->)]; [done|].
    unfold sessionOk; simpl. do 4 (split; [done|]). split; [|done].
    apply Forall_app_2; [by apply Forall_take|]. apply Forall_singleton.
    simplify_eq. by eapply snapshotOk_enter.
  - unfold undo in *. by destruct (decide (historyIndex s > 0)).
  - unfold redo in *.
    by destruct (decide (historyIndex s < length (history s) - 1)).
  - rewrite (clearUserInputs_spec s p) in * by done. simpl in *.
    unfold sessionOk; simpl. do 4 (split; [done|]). split; [|done].
    apply Forall_singleton. split; [done|]. by intros.
Qed.

Lemma sessionOk_newSession sol orig :
  grid9 sol → fullGrid sol → tidy orig →
  (∀ r c, cellAt orig r c ≠ Null → cellAt orig r c = cellAt sol r c) →
  sessionOk (newSession sol orig).
Proof.
  intros Hsol Hfull Horig Hkept. unfold sessionOk; simpl.
  do 4 (split; [done|]). split.
  - apply Forall_singleton. split; [done|]. by intros.
  - by apply historyInvariant_newSession.
Qed.

Lemma sessionOk_regenerate `{RandomSource R} fuel (s : Session) (rng : R)
    s' rng' :
  shuffle_permutes → random9_in_range →
  regenerate fuel s rng = Ret (s', rng') → sessionOk s'.
Proof.
  intros Hshuffle Hrange Hrun. unfold regenerate in Hrun.
  destruct (generateSudokuGrid fuel rng) as [[sol rng1]| |] eqn:Hgen; [|done..].
  rewrite bind_Ret in Hrun.
  destruct (createPuzzle fuel sol 40 rng1) as [[orig rng2]| |] eqn:Hcreate;
    [|done..].
  rewrite bind_Ret in Hrun.
  destruct (generateSudokuGrid_returned fuel rng sol rng1 Hshuffle Hgen)
    as (Hg & Hfull & Hclash).
  destruct (createPuzzle_returned fuel sol 40 rng1 orig rng2 Hrange)
    as (Htidy & Hn & Hkept); [by apply tidy_fullGrid|done|].
  simplify_eq.
  destruct (sessionOk_newSession sol orig Hg Hfull Htidy Hkept)
    as (? & ? & ? & ? & ? & ?).
  unfold sessionOk, historyInvariant in *; simpl in *. done.
Qed.

Lemma reachedWithoutReset_ok `{RandomSource R} (s : Session) :
  shuffle_permutes → random9_in_range → reachedWithoutReset s → sessionOk s.
Proof.
  intros Hshuffle Hrange. induction 1 as [fuel rng s rng' Hstart| |].
  - destruct (startSession_fresh fuel rng s rng' Hshuffle Hrange Hstart)
      as (sol & orig & -> & Hg & Hfull & _ & Htidy & _ & Hkept).
    by apply sessionOk_newSession.
  - by apply sessionOk_perform.
  - by eapply sessionOk_regenerate.
Qed.

(** Without [reset], the given cells stay what the solution has. *)
Lemma givensKept_without_reset `{RandomSource R} (s : Session) :
  shuffle_permutes → random9_in_range → reachedWithoutReset s → givensKept s.
Proof.
  intros Hshuffle Hrange Hreach.
  pose proof (reachedWithoutReset_ok s Hshuffle Hrange Hreach) as Hok.
  destruct (sessionOk_puzzle s Hok) as (p & Hp & _ & Hgivens).
  destruct Hok as (_ & _ & _ & Hkept & _).
  exists p. split; [done|]. intros r c Hr Hc Hgiven.
  rewrite Hgivens by done. by apply Hkept.
Qed.

(** Without [reset], clearing gives back the original puzzle. *)
Lemma clearUserInputs_without_reset `{RandomSource R} (s : Session) :
  shuffle_permutes → random9_in_range → reachedWithoutReset s →
  ∃ s', clearUserInputs s = Ret s' ∧ puzzle s' = Some (originalPuzzle s) ∧
    history s' = [originalPuzzle s] ∧ historyIndex s' = 0.
Proof.
  intros Hshuffle Hrange Hreach.
  pose proof (reachedWithoutReset_ok s Hshuffle Hrange Hreach) as Hok.
  destruct (sessionOk_puzzle s Hok) as (p & Hp & Hsnap).
  destruct Hok as (_ & _ & Horig & _).
  eexists. split; [by apply (clearUserInputs_spec s p)|]. done.
Qed.

(** ** [reset] *)

Lemma afterReset_eq : reset 100 started.1 started.2 = Ret afterReset.
Proof. by vm_compute. Qed.

(** C6 (code): [reset] derives one puzzle for the state and another one
    for the log, so the single snapshot of the log is not the puzzle. *)
Theorem reset_log_differs_from_puzzle :
  ∃ s rng s' rng' p q,
    startSession 100 counter0 = Ret (s, rng) ∧
    reset 100 s rng = Ret (s', rng') ∧
    puzzle s' = Some p ∧ history s' = [q] ∧ historyIndex s' = 0 ∧ p ≠ q.
Proof.
  exists started.1, started.2, afterReset.1, afterReset.2. do 2 eexists.
  split; [exact started_eq|]. split; [exact afterReset_eq|].
  do 3 (split; [done|]). done.
Qed.

(** C5 (code): [reset] installs a puzzle with another removal pattern and
    keeps [originalPuzzle]; cell (4, 4) is given there, holds 9 in the
    solution, and is empty in the puzzle after the reset. *)
Theorem reset_blanks_given_cell :
  ∃ s rng s' rng' p,
    startSession 100 counter0 = Ret (s, rng) ∧
    reset 100 s rng = Ret (s', rng') ∧ puzzle s' = Some p ∧
    cellAt (originalPuzzle s') 4 4 = Num 9 ∧
    cellAt (solution s') 4 4 = Num 9 ∧
    cellAt p 4 4 = Null ∧ ¬ givensKept s'.
Proof.
  exists started.1, started.2, afterReset.1, afterReset.2. eexists.
  split; [exact started_eq|].
  split; [exact afterReset_eq|]. do 4 (split; [done|]).
  intros (p & Hp & Hgivens). vm_compute in Hp. simplify_eq.
  by specialize (Hgivens 4 4 ltac:(lia) ltac:(lia) ltac:(by vm_compute)).
Qed.

(** C7 (code): after a [reset], clearing does not give [originalPuzzle]:
    cell (4, 4), given there, stays empty. *)
Theorem clearUserInputs_after_reset :
  ∃ s rng s' rng' s'' cleared,
    startSession 100 counter0 = Ret (s, rng) ∧
    reset 100 s rng = Ret (s', rng') ∧
    clearUserInputs s' = Ret s'' ∧ puzzle s'' = Some cleared ∧
    cellAt (originalPuzzle s') 4 4 = Num 9 ∧ cellAt cleared 4 4 = Null ∧
    cleared ≠ originalPuzzle s'.
Proof.
  exists started.1, started.2, afterReset.1, afterReset.2. do 2 eexists.
  split; [exact started_eq|].
  split; [exact afterReset_eq|]. split; [by vm_compute|].
  do 3 (split; [done|]). done.
Qed.

(** * Further properties of the code *)

(** ** The constraint checker and the solver *)

(** X1: on a 9x9 grid [isValidPlacement] returns, and it returns [true]
    exactly when no cell of the row, the column or the 3x3 box of the
    position holds the number (the position itself included). *)
Theorem isValidPlacement_iff (g : Grid) (row col : nat) (num : Z) :
  grid9 g → row < 9 → col < 9 →
  ∃ b, isValidPlacement g row col num = Ret b ∧
    (b = true ↔
     ∀ r' c', r' < 9 → c' < 9 → sees row col r' c' → cellAt g r' c' ≠ Num num).
Proof.
  intros Hg Hrow Hcol.
  destruct (isValidPlacement_spec g row col num Hg Hrow Hcol)
    as [[-> Hfree] | [-> (r' & c' & Hr' & Hc' & Hsees & Hocc)]].
  - exists true. by split.
  - exists false. split; [done|]. split; [done|].
    intros Hfree. by destruct (Hfree r' c').
Qed.

Lemma isValidPlacement_iff_witness :
  grid9 sampleSolution ∧ 0 < 9 ∧ 4 < 9 ∧
  ∃ b, isValidPlacement sampleSolution 0 4 7 = Ret b ∧
    (b = true ↔
     ∀ r' c', r' < 9 → c' < 9 → sees 0 4 r' c' →
       cellAt sampleSolution r' c' ≠ Num 7).
Proof.
  pose proof sampleSolution_solved as (Hg & _ & _).
  split; [exact Hg|]. split; [lia|]. split; [lia|].
  apply (isValidPlacement_iff sampleSolution 0 4 7 Hg); lia.
Defined.

Lemma fmap_seq_inj {A} (F : nat → A) j k :
  NoDup (F <$> seq 0 9) → j < 9 → k < 9 → F j = F k → j = k.
Proof.
  intros Hnd Hj Hk Heq.
  apply (NoDup_lookup (F <$> seq 0 9) j k (F j) Hnd).
  - rewrite list_lookup_fmap, lookup_seq_lt by lia. done.
  - rewrite list_lookup_fmap, lookup_seq_lt by lia. simpl. by rewrite Heq.
Qed.

Lemma NoDup_digits : NoDup digits.
Proof. by apply (bool_decide_unpack _); vm_compute. Qed.

Lemma solvedGrid_elim (g : Grid) :
  solvedGrid g → grid9 g ∧ fullGrid g ∧ noClash g.
Proof.
  intros (Hg & Hcells & Hunits). split; [done|]. split.
  - intros r c Hr Hc. destruct (Hcells r c Hr Hc) as (n & Hn & Hrange).
    exists n. split; [|done]. unfold cellAt, arr_get.
    destruct (g !! r) as [row|]; [simpl in Hn|done]. by rewrite Hn.
  - intros r c r' c' n Hr Hc Hr' Hc' Hn Hn' [<- | [<- | [Hr3 Hc3]]].
    + split; [done|].
      destruct (Hunits r Hr) as (Hrow & _ & _).
      apply (fmap_seq_inj (λ col, cellAt g r col)); [|done|done|congruence].
      unfold rowCells in Hrow. rewrite Hrow. apply NoDup_digits.
    + split; [|done].
      destruct (Hunits c Hc) as (_ & Hcolumn & _).
      apply (fmap_seq_inj (λ row, cellAt g row c)); [|done|done|congruence].
      unfold colCells in Hcolumn. rewrite Hcolumn. apply NoDup_digits.
    + destruct (Hunits (r / 3 * 3 + c / 3)) as (_ & _ & Hbox); [lia_div|].
      set (b := r / 3 * 3 + c / 3) in *.
      assert (r `mod` 3 * 3 + c `mod` 3 = r' `mod` 3 * 3 + c' `mod` 3) as Hk.
      { apply (fmap_seq_inj
          (λ k, cellAt g (b / 3 * 3 + k / 3) (b `mod` 3 * 3 + k `mod` 3)));
          [|lia_div|lia_div|].
        - unfold boxCells in Hbox. rewrite Hbox. apply NoDup_digits.
        - cbv beta.
          replace (b / 3 * 3 + (r `mod` 3 * 3 + c `mod` 3) / 3) with r
            by (unfold b; lia_div).
          replace (b `mod` 3 * 3 + (r `mod` 3 * 3 + c `mod` 3) `mod` 3) with c
            by (unfold b; lia_div).
          replace (b / 3 * 3 + (r' `mod` 3 * 3 + c' `mod` 3) / 3) with r'
            by (unfold b; lia_div).
          replace (b `mod` 3 * 3 + (r' `mod` 3 * 3 + c' `mod` 3) `mod` 3)
            with c' by (unfold b; lia_div).
          congruence. }
      split; lia_div.
Qed.

Section solver.
Context `{RandomSource R}.
Hypothesis shuffle_ok : shuffle_permutes.

Lemma extends_place (g g1 : Grid) row col :
  cellAt g row col = Null →
  (∀ r' c', ¬ (r' = row ∧ c' = col) → cellAt g1 r' c' = cellAt g r' c') →
  extends g g1.
Proof.
  intros Hnull Hsame r c n Hr Hc Hn.
  rewrite Hsame; [done|]. intros [-> ->]. congruence.
Qed.

Lemma tryNumbers_extends (rec : Grid → R → outcome (bool * Grid * R))
    (bound : nat) (g : Grid) row col :
  (∀ g1 rng1, grid9 g1 → cellsOk g1 → noClash g1 → nulls g1 < bound →
     ∃ res, rec g1 rng1 = Ret res ∧ fillPost g1 res ∧
       (res.1.1 = true → extends g1 res.1.2)) →
  grid9 g → cellsOk g → noClash g → nulls g ≤ bound →
  row < 9 → col < 9 → cellAt g row col = Null →
  ∀ numbers rng g' rng', (∀ n, n ∈ numbers → (1 ≤ n ≤ 9)%Z) →
    tryNumbers rec row col numbers g rng = Ret (true, g', rng') →
    extends g g'.
Proof.
  intros Hrec Hg Hok Hclash Hbound Hrow Hcol Hnull.
  induction numbers as [|num rest IH]; intros rng g' rng' Hrange; simpl;
    [done|].
  assert (∀ n, n ∈ rest → (1 ≤ n ≤ 9)%Z) as Hrest.
  { intros n Hn. apply Hrange. by right. }
  destruct (isValidPlacement_spec g row col num Hg Hrow Hcol)
    as [[-> Hvalid] | [-> _]]; rewrite bind_Ret; [|by apply IH].
  destruct (setCell_grid9 g row col (Num num) Hg Hrow Hcol)
    as (g1 & -> & Hg1 & Hnew & Hsame); [done|].
  rewrite bind_Ret.
  destruct (place_ok g g1 row col num) as [Hok1 Hclash1]; try done.
  { apply Hrange. by left. }
  destruct (Hrec g1 rng) as ([[filled g2] rng2] & -> & [Hg2 Hpost] & Hext);
    try done.
  { eapply Nat.lt_le_trans; [|exact Hbound].
    apply (nulls_fill g g1 row col); try done. by rewrite Hnew. }
  rewrite bind_Ret. destruct filled.
  - intros ?; simplify_eq. intros r c n Hr Hc Hn.
    apply Hext; try done. by apply (extends_place g g1 row col).
  - destruct Hpost as [-> _].
    destruct (setCell_grid9 g1 row col Null Hg1 Hrow Hcol)
      as (g3 & -> & Hg3 & Hnew3 & Hsame3); [done|].
    rewrite bind_Ret.
    assert (g3 = g) as ->; [|by apply IH].
    apply grid9_ext; try done.
    + intros r c Hr Hc. destruct (Hok r c Hr Hc) as [->|(n & -> & _)]; done.
    + intros r c Hr Hc.
      destruct (decide (r = row ∧ c = col)) as [[-> ->]|Hne].
      * by rewrite Hnew3, Hnull.
      * by rewrite Hsame3, Hsame.
Qed.

Lemma fillGrid_extends fuel (g : Grid) rng :
  grid9 g → cellsOk g → noClash g → nulls g < fuel →
  ∃ res, fillGrid fuel g rng = Ret res ∧ fillPost g res ∧
    (res.1.1 = true → extends g res.1.2).
Proof.
  revert g rng. induction fuel as [|fuel IH]; intros g rng Hg Hok Hclash Hfuel.
  { lia. }
  destruct (fillGrid_spec shuffle_ok (S fuel) g rng Hg Hok Hclash Hfuel)
    as ([[filled g'] rng'] & Hrun & Hpost).
  exists (filled, g', rng'). split; [done|]. split; [done|]. simpl.
  intros ->. simpl in Hrun.
  destruct (firstNull_spec g Hg)
    as [(row & col & Hpos & Hrow & Hcol & Hnull) | [Hpos _]];
    rewrite Hpos, bind_Ret in Hrun.
  - destruct (shuffle rng oneToNine) as [numbers rng1] eqn:Hsh.
    assert (numbers ≡ₚ oneToNine) as Hperm.
    { pose proof (shuffle_ok rng oneToNine) as Hp. by rewrite Hsh in Hp. }
    eapply (tryNumbers_extends (fillGrid fuel) fuel g row col IH);
      try done; [lia|].
    intros n Hn. apply elem_of_oneToNine. by rewrite <-Hperm.
  - simplify_eq. by intros r c n _ _ Hn.
Qed.
End solver.

(** X2: [fillGrid] is a complete solver with rollback. On any 9x9 grid of
    numbers 1..9 and [null]s without a clash it returns; when it returns
    [true] the grid is solved and still has the numbers it started with;
    when it returns [false] the grid is as it was, and no solved grid has
    the numbers it started with. *)
Theorem fillGrid_solver `{RandomSource R} (fuel : nat) (g : Grid) (rng : R) :
  shuffle_permutes → grid9 g → cellsOk g → noClash g → nulls g < fuel →
  ∃ filled g' rng',
    fillGrid fuel g rng = Ret (filled, g', rng') ∧
    if filled then solvedGrid g' ∧ extends g g'
    else g' = g ∧ ¬ ∃ s, solvedGrid s ∧ extends g s.
Proof.
  intros Hshuffle Hg Hok Hclash Hfuel.
  destruct (fillGrid_extends Hshuffle fuel g rng Hg Hok Hclash Hfuel)
    as ([[filled g'] rng'] & Hrun & [Hg' Hpost] & Hext).
  exists filled, g', rng'. split; [done|]. destruct filled.
  - destruct Hpost. split; [by apply solvedGrid_intro|by apply Hext].
  - destruct Hpost as [-> Hnone]. split; [done|].
    intros (s & (_ & Hfull & Hcl)%solvedGrid_elim & Hs). by apply (Hnone s).
Qed.

Lemma fillGrid_solver_witness :
  @shuffle_permutes (nat * bool) counter_source ∧ grid9 emptyGrid ∧
  cellsOk emptyGrid ∧ noClash emptyGrid ∧ nulls emptyGrid < 82 ∧
  ∃ filled g' rng',
    fillGrid 82 emptyGrid counter0 = Ret (filled, g', rng') ∧
    if filled then solvedGrid g' ∧ extends emptyGrid g'
    else g' = emptyGrid ∧ ¬ ∃ s, solvedGrid s ∧ extends emptyGrid s.
Proof.
  assert (cellsOk emptyGrid) as Hok.
  { intros r c Hr Hc. left. by apply cellAt_emptyGrid. }
  assert (noClash emptyGrid) as Hclash.
  { intros r c r' c' n Hr Hc _ _ Hn. by rewrite cellAt_emptyGrid in Hn. }
  assert (nulls emptyGrid < 82) as Hfuel.
  { pose proof (nulls_le_81 emptyGrid). lia. }
  split; [exact counter_shuffle_permutes|]. split; [exact grid9_emptyGrid|].
  split; [exact Hok|]. split; [exact Hclash|]. split; [exact Hfuel|].
  apply (fillGrid_solver 82 emptyGrid counter0);
    [exact counter_shuffle_permutes|exact grid9_emptyGrid|exact Hok
    |exact Hclash|exact Hfuel].
Defined.

(** ** Starting, regenerating and resetting a game *)

Lemma generateSudokuGrid_any_fuel `{RandomSource R} (rng : R) :
  shuffle_permutes →
  ∃ sol rng1,
    (∀ fuel, 82 ≤ fuel → generateSudokuGrid fuel rng = Ret (sol, rng1)) ∧
    grid9 sol ∧ fullGrid sol ∧ noClash sol.
Proof.
  intros Hshuffle.
  destruct (generateSudokuGrid_full 82 rng Hshuffle)
    as (sol & rng1 & Hrun & Hsol); [lia|].
  exists sol, rng1. split; [|done]. intros fuel Hfuel.
  unfold generateSudokuGrid in *.
  destruct (fillGrid 82 emptyGrid rng) as [[[filled g] r]| |] eqn:E; [|done..].
  by rewrite (fillGrid_mono 82 fuel _ _ _ Hfuel E).
Qed.

Lemma createPuzzle_total `{RandomSource R} (g : Grid) n (rng : R) :
  random9_in_range → fairFrom rng → tidy g →
  (n ≤ Z.of_nat (nonNulls g))%Z →
  ∃ fuel0 p rng',
    (∀ fuel, fuel0 ≤ fuel → createPuzzle fuel g n rng = Ret (p, rng')) ∧
    tidy p ∧ nulls p = nulls g + Z.to_nat n ∧
    ∀ r c, cellAt p r c ≠ Null → cellAt p r c = cellAt g r c.
Proof.
  intros Hrange Hfair Htidy Hn.
  assert (∃ fuel0 res, ∀ fuel, fuel0 ≤ fuel →
            createPuzzle fuel g n rng = Ret res) as (fuel0 & [p rng'] & Hrun).
  { unfold createPuzzle. rewrite spread_tidy by done.
    apply (removeLoop_terminates Hrange (Z.to_nat n)); try done;
      [apply Htidy|lia]. }
  exists fuel0, p, rng'. split; [done|].
  by apply (createPuzzle_returned fuel0 g n rng p rng' Hrange Htidy), Hrun.
Qed.

Lemma nonNulls_fullGrid (g : Grid) : fullGrid g → nonNulls g = 81.
Proof.
  intros Hfull. pose proof (nulls_nonNulls g) as Hsum.
  rewrite nulls_fullGrid in Hsum by done. lia.
Qed.

(** A new solution and a puzzle derived from it. *)
Lemma deal_total `{RandomSource R} (rng : R) :
  shuffle_permutes → random9_in_range → alwaysFair →
  ∃ fuel0 sol rng1 orig rng2,
    (∀ fuel, fuel0 ≤ fuel →
       generateSudokuGrid fuel rng = Ret (sol, rng1) ∧
       createPuzzle fuel sol 40 rng1 = Ret (orig, rng2)) ∧
    grid9 sol ∧ fullGrid sol ∧ noClash sol ∧ tidy orig ∧ nulls orig = 40 ∧
    ∀ r c, cellAt orig r c ≠ Null → cellAt orig r c = cellAt sol r c.
Proof.
  intros Hshuffle Hrange Hfair.
  destruct (generateSudokuGrid_any_fuel rng Hshuffle)
    as (sol & rng1 & Hgen & Hg & Hfull & Hclash).
  destruct (createPuzzle_total sol 40 rng1 Hrange (Hfair rng1))
    as (fuel0 & orig & rng2 & Hcreate & Htidy & Hn & Hkept).
  { by apply tidy_fullGrid. }
  { rewrite nonNulls_fullGrid by done. lia. }
  exists (82 + fuel0), sol, rng1, orig, rng2. split.
  - intros fuel Hfuel. split; [apply Hgen|apply Hcreate]; lia.
  - rewrite (nulls_fullGrid sol) in Hn by done. do 4 (split; [done|]).
    split; [lia|done].
Qed.

(** X3: the first render always yields a playable game: the solution is a
    solved grid, the original puzzle is that grid with exactly 40 cells
    emptied, the current puzzle and the single snapshot of the log are the
    original puzzle, the cursor is 0 and no cell is selected. *)
Theorem startSession_valid `{RandomSource R} (rng : R) :
  shuffle_permutes → random9_in_range → alwaysFair →
  ∃ fuel0 s rng',
    (∀ fuel, fuel0 ≤ fuel → startSession fuel rng = Ret (s, rng')) ∧
    solvedGrid (solution s) ∧ grid9 (originalPuzzle s) ∧
    nulls (originalPuzzle s) = 40 ∧
    (∀ r c, cellAt (originalPuzzle s) r c ≠ Null →
       cellAt (originalPuzzle s) r c = cellAt (solution s) r c) ∧
    puzzle s = Some (originalPuzzle s) ∧ history s = [originalPuzzle s] ∧
    historyIndex s = 0 ∧ selectedCell s = None.
Proof.
  intros Hshuffle Hrange Hfair.
  destruct (deal_total rng Hshuffle Hrange Hfair)
    as (fuel0 & sol & rng1 & orig & rng2 & Hrun & Hg & Hfull & Hclash &
        Htidy & Hn & Hkept).
  exists fuel0, (newSession sol orig), rng2. split.
  - intros fuel Hfuel. destruct (Hrun fuel Hfuel) as [Hgen Hcreate].
    unfold startSession. by rewrite Hgen, bind_Ret, Hcreate, bind_Ret.
  - simpl. split; [by apply solvedGrid_intro|]. split; [apply Htidy|].
    do 2 (split; [done|]). by rewrite spread_tidy.
Qed.

(** X4: "Generate New Puzzle" always yields a playable game, whatever the
    state it is pressed in: a new solved grid, an original puzzle with
    exactly 40 of its cells emptied, the current puzzle and the log set to
    it, the cursor 0. The selection is kept as it was. *)
Theorem regenerate_valid `{RandomSource R} (s : Session) (rng : R) :
  shuffle_permutes → random9_in_range → alwaysFair →
  ∃ fuel0 s' rng',
    (∀ fuel, fuel0 ≤ fuel → regenerate fuel s rng = Ret (s', rng')) ∧
    solvedGrid (solution s') ∧ grid9 (originalPuzzle s') ∧
    nulls (originalPuzzle s') = 40 ∧
    (∀ r c, cellAt (originalPuzzle s') r c ≠ Null →
       cellAt (originalPuzzle s') r c = cellAt (solution s') r c) ∧
    puzzle s' = Some (originalPuzzle s') ∧ history s' = [originalPuzzle s'] ∧
    historyIndex s' = 0 ∧ selectedCell s' = selectedCell s.
Proof.
  intros Hshuffle Hrange Hfair.
  destruct (deal_total rng Hshuffle Hrange Hfair)
    as (fuel0 & sol & rng1 & orig & rng2 & Hrun & Hg & Hfull & Hclash &
        Htidy & Hn & Hkept).
  eexists fuel0, _, rng2. split.
  - intros fuel Hfuel. destruct (Hrun fuel Hfuel) as [Hgen Hcreate].
    unfold regenerate. by rewrite Hgen, bind_Ret, Hcreate, bind_Ret.
  - simpl. split; [by apply solvedGrid_intro|]. split; [apply Htidy|].
    do 2 (split; [done|]). by rewrite spread_tidy.
Qed.

(** X5: what [reset] does to a session with a full 9x9 solution: it
    returns; the solution, the original puzzle and the selection are
    kept; the cursor is 0; the current puzzle and the single snapshot of
    the log are each the solution with exactly 40 cells emptied. *)
Theorem reset_result `{RandomSource R} (s : Session) (rng : R) :
  random9_in_range → alwaysFair →
  grid9 (solution s) → fullGrid (solution s) →
  ∃ fuel0 s' rng' p q,
    (∀ fuel, fuel0 ≤ fuel → reset fuel s rng = Ret (s', rng')) ∧
    solution s' = solution s ∧ originalPuzzle s' = originalPuzzle s ∧
    selectedCell s' = selectedCell s ∧ historyIndex s' = 0 ∧
    puzzle s' = Some p ∧ history s' = [q] ∧
    grid9 p ∧ nulls p = 40 ∧
    (∀ r c, cellAt p r c ≠ Null → cellAt p r c = cellAt (solution s) r c) ∧
    grid9 q ∧ nulls q = 40 ∧
    (∀ r c, cellAt q r c ≠ Null → cellAt q r c = cellAt (solution s) r c).
Proof.
  intros Hrange Hfair Hg Hfull.
  pose proof (tidy_fullGrid _ Hg Hfull) as Htidy.
  pose proof (nonNulls_fullGrid _ Hfull) as Hcount.
  pose proof (nulls_fullGrid _ Hfull) as Hnone.
  destruct (createPuzzle_total (solution s) 40 rng Hrange (Hfair rng) Htidy)
    as (fuel1 & p & rng1 & Hrun1 & Hp & Hn1 & Hkept1); [lia|].
  destruct (createPuzzle_total (solution s) 40 rng1 Hrange (Hfair rng1) Htidy)
    as (fuel2 & q & rng2 & Hrun2 & Hq & Hn2 & Hkept2); [lia|].
  eexists (fuel1 + fuel2), _, rng2, p, q. split.
  - intros fuel Hfuel. unfold reset.
    rewrite Hrun1, bind_Ret, Hrun2, bind_Ret by lia. done.
  - simpl. do 6 (split; [done|]).
    split; [apply Hp|]. split; [lia|]. split; [done|].
    split; [apply Hq|]. split; [lia|done].
Qed.

Lemma counter_drawCell_true k :
  drawCell (k, true) = (k `mod` 9, (S k / 9) `mod` 9, (S k, true)).
Proof. done. Qed.

Lemma counter_afterDraws_true n k : afterDraws n (k, true) = (n + k, true).
Proof.
  revert k. induction n as [|n IH]; intros k; [done|].
  cbn [afterDraws]. rewrite counter_drawCell_true. cbn [snd]. rewrite IH.
  f_equal. lia.
Qed.

Lemma counter_alwaysFair : @alwaysFair (nat * bool) counter_source.
Proof.
  intros [k []]; [|apply counter_fair].
  intros n row col Hrow Hcol.
  exists (80 * (n + k) + 81 + 9 * (if decide (row = 8) then col + 8 else col)
          + row).
  rewrite counter_afterDraws_true, counter_drawCell_true. cbn [fst].
  destruct (decide (row = 8)); f_equal; lia_div.
Qed.

Lemma startSession_valid_witness :
  @shuffle_permutes (nat * bool) counter_source ∧
  @random9_in_range (nat * bool) counter_source ∧
  @alwaysFair (nat * bool) counter_source ∧
  ∃ fuel0 s rng',
    (∀ fuel, fuel0 ≤ fuel → startSession fuel counter0 = Ret (s, rng')) ∧
    solvedGrid (solution s) ∧ grid9 (originalPuzzle s) ∧
    nulls (originalPuzzle s) = 40 ∧
    (∀ r c, cellAt (originalPuzzle s) r c ≠ Null →
       cellAt (originalPuzzle s) r c = cellAt (solution s) r c) ∧
    puzzle s = Some (originalPuzzle s) ∧ history s = [originalPuzzle s] ∧
    historyIndex s = 0 ∧ selectedCell s = None.
Proof.
  split; [exact counter_shuffle_permutes|]. split; [exact counter_in_range|].
  split; [exact counter_alwaysFair|].
  apply (startSession_valid counter0);
    [exact counter_shuffle_permutes|exact counter_in_range
    |exact counter_alwaysFair].
Defined.

Lemma regenerate_valid_witness :
  @shuffle_permutes (nat * bool) counter_source ∧
  @random9_in_range (nat * bool) counter_source ∧
  @alwaysFair (nat * bool) counter_source ∧
  ∃ fuel0 s' rng',
    (∀ fuel, fuel0 ≤ fuel →
       regenerate fuel threeMoves started.2 = Ret (s', rng')) ∧
    solvedGrid (solution s') ∧ grid9 (originalPuzzle s') ∧
    nulls (originalPuzzle s') = 40 ∧
    (∀ r c, cellAt (originalPuzzle s') r c ≠ Null →
       cellAt (originalPuzzle s') r c = cellAt (solution s') r c) ∧
    puzzle s' = Some (originalPuzzle s') ∧ history s' = [originalPuzzle s'] ∧
    historyIndex s' = 0 ∧ selectedCell s' = selectedCell threeMoves.
Proof.
  split; [exact counter_shuffle_permutes|]. split; [exact counter_in_range|].
  split; [exact counter_alwaysFair|].
  apply (regenerate_valid threeMoves started.2);
    [exact counter_shuffle_permutes|exact counter_in_range
    |exact counter_alwaysFair].
Defined.

Lemma reset_result_witness :
  @random9_in_range (nat * bool) counter_source ∧
  @alwaysFair (nat * bool) counter_source ∧
  grid9 (solution started.1) ∧ fullGrid (solution started.1) ∧
  ∃ fuel0 s' rng' p q,
    (∀ fuel, fuel0 ≤ fuel → reset fuel started.1 started.2 = Ret (s', rng')) ∧
    solution s' = solution started.1 ∧
    originalPuzzle s' = originalPuzzle started.1 ∧
    selectedCell s' = selectedCell started.1 ∧ historyIndex s' = 0 ∧
    puzzle s' = Some p ∧ history s' = [q] ∧
    grid9 p ∧ nulls p = 40 ∧
    (∀ r c, cellAt p r c ≠ Null →
       cellAt p r c = cellAt (solution started.1) r c) ∧
    grid9 q ∧ nulls q = 40 ∧
    (∀ r c, cellAt q r c ≠ Null →
       cellAt q r c = cellAt (solution started.1) r c).
Proof.
  assert (grid9 (solution started.1)) as Hg
    by (by apply (bool_decide_unpack _); vm_compute).
  assert (fullGrid (solution started.1)) as Hfull.
  { apply fullGridCheck_sound. by apply (bool_decide_unpack _); vm_compute. }
  split; [exact counter_in_range|]. split; [exact counter_alwaysFair|].
  split; [exact Hg|]. split; [exact Hfull|].
  apply (reset_result started.1 started.2);
    [exact counter_in_range|exact counter_alwaysFair|exact Hg|exact Hfull].
Defined.

(** X6: [createPuzzle] on a grid that already has empty cells: for any
    count up to the number of cells that are not empty (a count of zero
    or less included) it returns a 9x9 grid with exactly that many more
    empty cells; the cells that were empty stay empty and the others that
    remain are unchanged. *)
Theorem createPuzzle_from_partial `{RandomSource R} (g : Grid) (n : Z)
    (rng : R) :
  random9_in_range → fairFrom rng → tidy g →
  (n ≤ Z.of_nat (nonNulls g))%Z →
  ∃ fuel0 p rng',
    (∀ fuel, fuel0 ≤ fuel → createPuzzle fuel g n rng = Ret (p, rng')) ∧
    grid9 p ∧ nulls p = nulls g + Z.to_nat n ∧
    (∀ r c, cellAt p r c ≠ Null → cellAt p r c = cellAt g r c) ∧
    (∀ r c, cellAt g r c = Null → cellAt p r c = Null).
Proof.
  intros Hrange Hfair Htidy Hn.
  destruct (createPuzzle_total g n rng Hrange Hfair Htidy Hn)
    as (fuel0 & p & rng' & Hrun & Hp & Hcount & Hkept).
  exists fuel0, p, rng'. split; [done|]. split; [apply Hp|].
  do 2 (split; [done|]). intros r c Hnull.
  destruct (decide (cellAt p r c = Null)) as [|Hne]; [done|].
  by rewrite (Hkept r c Hne).
Qed.

Lemma started_fresh :
  ∃ sol orig, started.1 = newSession sol orig ∧
    grid9 sol ∧ fullGrid sol ∧ noClash sol ∧ tidy orig ∧ nulls orig = 40 ∧
    ∀ r c, cellAt orig r c ≠ Null → cellAt orig r c = cellAt sol r c.
Proof.
  apply (startSession_fresh 100 counter0 started.1 started.2
           counter_shuffle_permutes counter_in_range started_eq).
Qed.

Lemma started_tidy : tidy (originalPuzzle started.1).
Proof. destruct started_fresh as (sol & orig & -> & _ & _ & _ & H & _). done. Qed.

Lemma createPuzzle_from_partial_witness :
  @random9_in_range (nat * bool) counter_source ∧ fairFrom counter0 ∧
  tidy (originalPuzzle started.1) ∧
  (41 ≤ Z.of_nat (nonNulls (originalPuzzle started.1)))%Z ∧
  ∃ fuel0 p rng',
    (∀ fuel, fuel0 ≤ fuel →
       createPuzzle fuel (originalPuzzle started.1) 41 counter0 = Ret (p, rng')) ∧
    grid9 p ∧ nulls p = nulls (originalPuzzle started.1) + Z.to_nat 41 ∧
    (∀ r c, cellAt p r c ≠ Null →
       cellAt p r c = cellAt (originalPuzzle started.1) r c) ∧
    (∀ r c, cellAt (originalPuzzle started.1) r c = Null → cellAt p r c = Null).
Proof.
  assert (41 ≤ Z.of_nat (nonNulls (originalPuzzle started.1)))%Z as Hn
    by (by vm_compute).
  split; [exact counter_in_range|]. split; [exact (counter_fair 0)|].
  split; [exact started_tidy|]. split; [exact Hn|].
  apply (createPuzzle_from_partial (originalPuzzle started.1) 41 counter0);
    [exact counter_in_range|exact (counter_fair 0)|exact started_tidy
    |exact Hn].
Defined.

(** ** Undo and redo *)

Lemma historyInvariant_puzzle (s : Session) :
  historyInvariant s → puzzle s = history s !! historyIndex s.
Proof. intros (_ & _ & p & -> & ->). done. Qed.

(** X7: away from the ends of the log, undo and redo are inverse to each
    other on the whole state: redo after undo, and undo after redo, give
    back the session as it was. *)
Theorem undo_redo_inverse (s : Session) :
  historyInvariant s →
  (0 < historyIndex s → redo (undo s) = s) ∧
  (historyIndex s < length (history s) - 1 → undo (redo s) = s).
Proof.
  intros Hinv. pose proof (historyInvariant_puzzle s Hinv) as Hp.
  destruct Hinv as (_ & Hidx & _). destruct s as [sol orig p h i sel].
  simpl in *. split; intros Hi.
  - unfold undo; simpl. rewrite decide_True by lia.
    unfold redo; simpl. rewrite decide_True by lia.
    replace (i - 1 + 1) with i by lia. by rewrite Hp.
  - unfold redo; simpl. rewrite decide_True by lia.
    unfold undo; simpl. rewrite decide_True by lia.
    replace (i + 1 - 1) with i by lia. by rewrite Hp.
Qed.

Lemma threeMoves_invariant : historyInvariant threeMoves.
Proof.
  apply (historyInvariant_performAll
           [SelectCell 0 0; EnterValue 5; SelectCell 0 1; EnterValue 6]
           started.1).
  destruct started_fresh as (sol & orig & -> & _ & _ & _ & Htidy & _).
  by apply historyInvariant_newSession.
Qed.

Lemma undo_redo_inverse_witness :
  historyInvariant threeMoves ∧ 0 < historyIndex threeMoves ∧
  redo (undo threeMoves) = threeMoves.
Proof.
  split; [exact threeMoves_invariant|]. split; [by vm_compute; lia|].
  apply (undo_redo_inverse threeMoves threeMoves_invariant). by vm_compute; lia.
Defined.

Lemma undo_fields (s : Session) :
  history (undo s) = history s ∧ historyIndex (undo s) = historyIndex s - 1.
Proof.
  unfold undo. destruct (decide (historyIndex s > 0)); simpl; [done|].
  split; [done|lia].
Qed.

Lemma redo_fields (s : Session) :
  historyIndex s < length (history s) →
  history (redo s) = history s ∧
  historyIndex (redo s) = (historyIndex s + 1) `min` (length (history s) - 1).
Proof.
  intros Hidx. unfold redo.
  destruct (decide (historyIndex s < length (history s) - 1)); simpl;
    (split; [done|lia]).
Qed.

Lemma undo_iter (n : nat) (s : Session) :
  historyInvariant s →
  historyInvariant (Nat.iter n undo s) ∧
  history (Nat.iter n undo s) = history s ∧
  historyIndex (Nat.iter n undo s) = historyIndex s - n.
Proof.
  intros Hinv. induction n as [|n (IH1 & IH2 & IH3)].
  { simpl. split; [done|]. split; [done|lia]. }
  rewrite Nat.iter_succ.
  split; [apply (historyInvariant_perform _ Undo IH1)|].
  destruct (undo_fields (Nat.iter n undo s)) as [-> ->].
  split; [done|lia].
Qed.

Lemma redo_iter (n : nat) (s : Session) :
  historyInvariant s →
  historyInvariant (Nat.iter n redo s) ∧
  history (Nat.iter n redo s) = history s ∧
  historyIndex (Nat.iter n redo s) =
    (historyIndex s + n) `min` (length (history s) - 1).
Proof.
  intros Hinv. pose proof Hinv as (_ & Hidx & _).
  induction n as [|n (IH1 & IH2 & IH3)].
  { simpl. split; [done|]. split; [done|lia]. }
  rewrite Nat.iter_succ.
  split; [apply (historyInvariant_perform _ Redo IH1)|].
  destruct (redo_fields (Nat.iter n redo s)) as [-> ->].
  { by destruct IH1 as (_ & ? & _). }
  split; [done|]. rewrite IH2. lia.
Qed.

(** X8: undo pressed at least as often as the cursor is high leads to the
    first snapshot of the log, and redo pressed often enough to the last
    one; further presses change nothing, and the log itself is never
    changed by either. *)
Theorem undo_redo_to_the_ends (s : Session) (n : nat) :
  historyInvariant s →
  (historyIndex s ≤ n →
     historyIndex (Nat.iter n undo s) = 0 ∧
     puzzle (Nat.iter n undo s) = history s !! 0 ∧
     history (Nat.iter n undo s) = history s) ∧
  (length (history s) - 1 - historyIndex s ≤ n →
     historyIndex (Nat.iter n redo s) = length (history s) - 1 ∧
     puzzle (Nat.iter n redo s) = history s !! (length (history s) - 1) ∧
     history (Nat.iter n redo s) = history s).
Proof.
  intros Hinv. split; intros Hn.
  - destruct (undo_iter n s Hinv) as (Hinv' & Hlog & Hidx).
    rewrite (historyInvariant_puzzle _ Hinv'), Hlog, Hidx.
    by replace (historyIndex s - n) with 0 by lia.
  - destruct (redo_iter n s Hinv) as (Hinv' & Hlog & Hidx).
    rewrite (historyInvariant_puzzle _ Hinv'), Hlog, Hidx.
    by replace ((historyIndex s + n) `min` (length (history s) - 1))
      with (length (history s) - 1) by lia.
Qed.

Lemma undo_redo_to_the_ends_witness :
  historyInvariant threeMoves ∧ historyIndex threeMoves ≤ 5 ∧
  historyIndex (Nat.iter 5 undo threeMoves) = 0 ∧
  puzzle (Nat.iter 5 undo threeMoves) = history threeMoves !! 0 ∧
  history (Nat.iter 5 undo threeMoves) = history threeMoves.
Proof.
  assert (historyIndex threeMoves ≤ 5) as Hn by (by vm_compute; lia).
  split; [exact threeMoves_invariant|]. split; [exact Hn|].
  apply (undo_redo_to_the_ends threeMoves 5 threeMoves_invariant). exact Hn.
Defined.

(** ** Entering values *)

(** X9: a number key acts once per selection: whatever the first press
    did, a second press right after it changes nothing (a successful
    entry clears the selection, an ignored one is ignored again). *)
Theorem handleNumberClick_once (s s' : Session) (n m : Z) :
  handleNumberClick n s = Ret s' → handleNumberClick m s' = Ret s'.
Proof.
  unfold handleNumberClick at 1.
  destruct (selectedCell s) as [[row col]|] eqn:Hsel.
  2: { intros ?; simplify_eq. unfold handleNumberClick. by rewrite Hsel. }
  destruct (getCellZ (originalPuzzle s) row col) as [c| |] eqn:Hcell; [|done..].
  rewrite bind_Ret. destruct (is_null c) eqn:Hnull.
  2: { intros ?; simplify_eq. unfold handleNumberClick.
       by rewrite Hsel, Hcell, bind_Ret, Hnull. }
  destruct (puzzle s) as [p|]; [|done].
  destruct (setCellZ _ row col (Num n)) as [snap| |]; [|done..].
  rewrite bind_Ret. intros ?; simplify_eq. done.
Qed.

Lemma handleNumberClick_once_witness :
  let s := performAll started.1 [SelectCell 0 0] in
  ∃ s', handleNumberClick 5 s = Ret s' ∧ handleNumberClick 6 s' = Ret s' ∧
    s' ≠ s.
Proof.
  intros s.
  destruct (handleNumberClick 5 s) as [s'| |] eqn:Hrun;
    [|by vm_compute in Hrun..].
  exists s'. split; [done|].
  split; [exact (handleNumberClick_once s s' 5 6 Hrun)|].
  intros ->. by vm_compute in Hrun.
Defined.

Lemma arr_get_set_ne (arr : Row) i j v :
  i ≠ j → arr_get (arr_set arr i v) j = arr_get arr j.
Proof.
  intros Hne. unfold arr_get, arr_set.
  destruct (decide (i < length arr)) as [Hi|Hi].
  { by rewrite list_lookup_insert_ne. }
  destruct (decide (j < length arr)) as [Hj|Hj].
  { by rewrite lookup_app_l. }
  rewrite (lookup_ge_None_2 arr j) by lia.
  rewrite lookup_app_r by lia.
  destruct (decide (j < i)) as [Hlt|Hgt].
  - rewrite lookup_app_l by (rewrite length_replicate; lia).
    by rewrite lookup_replicate_2 by lia.
  - rewrite lookup_app_r by (rewrite length_replicate; lia).
    rewrite length_replicate.
    destruct (j - length arr - (i - length arr)) as [|k] eqn:E; [lia|done].
Qed.

Lemma cellAt_setCellZ_ne (g g' : Grid) row col v r c :
  setCellZ g row col v = Ret g' →
  ¬ (Z.of_nat r = row ∧ Z.of_nat c = col) →
  cellAt g' r c = cellAt g r c.
Proof.
  unfold setCellZ. destruct (decide (0 ≤ row)%Z) as [Hrow|]; [|done].
  destruct (g !! Z.to_nat row) as [rw|] eqn:Hrw; [|done].
  intros ? Hne; simplify_eq. unfold cellAt.
  destruct (decide (r = Z.to_nat row)) as [->|Hr].
  - rewrite list_lookup_insert_eq by by eapply lookup_lt_Some.
    rewrite Hrw. destruct (decide (0 ≤ col)%Z) as [Hcol|]; [|done].
    apply arr_get_set_ne. intros <-. apply Hne. lia.
  - by rewrite list_lookup_insert_ne.
Qed.

Lemma getCellZ_cellAt (g : Grid) r c v :
  getCellZ g (Z.of_nat r) (Z.of_nat c) = Ret v → v = cellAt g r c.
Proof.
  unfold getCellZ, cellAt. rewrite decide_True by lia. rewrite Nat2Z.id.
  destruct (g !! r); [|done]. rewrite decide_True by lia. rewrite Nat2Z.id.
  by intros ?; simplify_eq.
Qed.

(** X10: in any state whatsoever, a number key never changes a cell that
    the original puzzle marks as given, and it never changes the original
    puzzle or the solution. *)
Theorem enterValue_keeps_givens (s s' : Session) (num : Z) (p : Grid) :
  handleNumberClick num s = Ret s' → puzzle s = Some p →
  originalPuzzle s' = originalPuzzle s ∧ solution s' = solution s ∧
  ∃ p', puzzle s' = Some p' ∧
    ∀ r c, cellAt (originalPuzzle s) r c ≠ Null → cellAt p' r c = cellAt p r c.
Proof.
  intros Hrun Hp.
  apply handleNumberClick_cases in Hrun
    as [->|(row & col & p0 & snap & _ & Hcell & Hp0 & Hset & ->)].
  { do 2 (split; [done|]). by exists p. }
  simpl. do 2 (split; [done|]). exists snap. split; [done|].
  intros r c Hgiven. simplify_eq.
  apply (cellAt_setCellZ_ne _ _ _ _ _ _ _ Hset).
  intros [<- <-]. by apply getCellZ_cellAt in Hcell.
Qed.

Lemma enterValue_keeps_givens_witness :
  let s := performAll afterReset.1 [SelectCell 0 0] in
  ∃ s' p,
    handleNumberClick 5 s = Ret s' ∧ puzzle s = Some p ∧
    originalPuzzle s' = originalPuzzle s ∧ solution s' = solution s ∧
    ∃ p', puzzle s' = Some p' ∧
      ∀ r c, cellAt (originalPuzzle s) r c ≠ Null →
        cellAt p' r c = cellAt p r c.
Proof.
  intros s.
  destruct (handleNumberClick 5 s) as [s'| |] eqn:Hrun;
    [|by vm_compute in Hrun..].
  destruct (puzzle s) as [p|] eqn:Hp; [|by vm_compute in Hp].
  exists s', p. split; [done|]. split; [done|].
  exact (enterValue_keeps_givens s s' 5 p Hrun Hp).
Defined.

(** X11: selecting an empty cell of the original puzzle and pressing a key
    writes that number, whatever it is and whatever the rules of the game
    say about it, into exactly that cell of a new snapshot: every other
    cell is as before, the snapshot is appended to the log up to the
    cursor, and the selection is cleared. *)
Theorem select_then_enter (s : Session) (row col num : Z) (p : Grid) :
  grid9 (originalPuzzle s) → puzzle s = Some p → grid9 p →
  getCellZ (originalPuzzle s) row col = Ret Null →
  ∃ s1 s2 p2,
    handleCellClick row col s = Ret s1 ∧ handleNumberClick num s1 = Ret s2 ∧
    puzzle s2 = Some p2 ∧
    cellAt p2 (Z.to_nat row) (Z.to_nat col) = Num num ∧
    (∀ r c, ¬ (r = Z.to_nat row ∧ c = Z.to_nat col) →
       cellAt p2 r c = cellAt p r c) ∧
    history s2 = take (historyIndex s + 1) (history s) ++ [p2] ∧
    selectedCell s2 = None ∧
    originalPuzzle s2 = originalPuzzle s ∧ solution s2 = solution s.
Proof.
  intros Horig Hp Hgp Hcell.
  pose proof (getCellZ_row_range _ _ _ _ Horig Hcell) as Hrow.
  pose proof Hcell as Hcell'. rewrite getCellZ_grid9 in Hcell' by done.
  destruct (decide (0 ≤ col)%Z) as [Hcol|]; [|by simplify_eq].
  assert (Z.to_nat col < 9) as Hcol9.
  { eapply (cellAt_Null_col (originalPuzzle s) (Z.to_nat row));
      [done|lia|by simplify_eq]. }
  destruct (setCell_grid9 p (Z.to_nat row) (Z.to_nat col) (Num num))
    as (p2 & Hset & Hgp2 & Hnew & Hsame); [done|lia|done|done|].
  do 2 eexists. exists p2.
  unfold handleCellClick. rewrite Hcell, bind_Ret. simpl.
  split; [done|]. unfold handleNumberClick. simpl.
  rewrite Hcell, bind_Ret. simpl. rewrite Hp, list_fmap_id.
  rewrite setCellZ_nat, Hset, bind_Ret by lia. simpl. done.
Qed.

Lemma select_then_enter_witness :
  ∃ p,
    grid9 (originalPuzzle started.1) ∧ puzzle started.1 = Some p ∧ grid9 p ∧
    getCellZ (originalPuzzle started.1) 2 3 = Ret Null ∧
    ∃ s1 s2 p2,
      handleCellClick 2 3 started.1 = Ret s1 ∧
      handleNumberClick 42 s1 = Ret s2 ∧ puzzle s2 = Some p2 ∧
      cellAt p2 (Z.to_nat 2) (Z.to_nat 3) = Num 42 ∧
      (∀ r c, ¬ (r = Z.to_nat 2 ∧ c = Z.to_nat 3) →
         cellAt p2 r c = cellAt p r c) ∧
      history s2 =
        take (historyIndex started.1 + 1) (history started.1) ++ [p2] ∧
      selectedCell s2 = None ∧
      originalPuzzle s2 = originalPuzzle started.1 ∧
      solution s2 = solution started.1.
Proof.
  destruct (puzzle started.1) as [p|] eqn:Hp; [|by vm_compute in Hp].
  assert (grid9 (originalPuzzle started.1)) as Hg
    by (by apply (bool_decide_unpack _); vm_compute).
  assert (grid9 p) as Hgp.
  { vm_compute in Hp. simplify_eq. by apply (bool_decide_unpack _); vm_compute. }
  assert (getCellZ (originalPuzzle started.1) 2 3 = Ret Null) as Hcell
    by (by vm_compute).
  exists p. split; [exact Hg|]. split; [done|]. split; [exact Hgp|].
  split; [exact Hcell|].
  exact (select_then_enter started.1 2 3 42 p Hg Hp Hgp Hcell).
Defined.

(** ** Clearing the inputs *)

Lemma clearUserInputs_returns (s : Session) p :
  grid9 (originalPuzzle s) → puzzle s = Some p → tidy p →
  ∃ q, clearUserInputs s =
         Ret {| solution := solution s; originalPuzzle := originalPuzzle s;
                puzzle := Some q; history := [q]; historyIndex := 0;
                selectedCell := selectedCell s |} ∧
    grid9 q ∧
    ∀ r c, r < 9 → c < 9 →
      cellAt q r c =
        if is_null (cellAt (originalPuzzle s) r c) then Null else cellAt p r c.
Proof.
  intros Horig Hp Htidy. unfold clearUserInputs. rewrite Hp.
  set (keep := λ (ri ci : nat) (c : cell),
    match c with
    | Hole => Hole
    | _ => if is_null (cellAt (originalPuzzle s) ri ci) then Null else c
    end).
  pose proof Htidy as [[Hlen Hrows] Hdef].
  rewrite (mapIndexed_0 _ (λ ri row, imap (keep ri) row)).
  2: { intros ri row Hrow. apply mapIndexed_0. intros ci c Hc.
       apply lookup_lt_Some in Hrow.
       destruct c; try done;
         by rewrite getCell_grid9, bind_Ret by (done || lia). }
  rewrite bind_Ret. eexists. split; [done|]. split.
  - split; [by rewrite length_imap|]. apply list.Forall_forall.
    intros row' (ri & row & -> & Hrow)%elem_of_lookup_imap.
    rewrite length_imap. by eapply Forall_lookup_1 in Hrows.
  - intros r c Hr Hc.
    destruct (tidy_lookup p r c Htidy Hr Hc) as (row & Hrow & Hcell & Hhole).
    unfold cellAt at 1, arr_get. rewrite list_lookup_imap, Hrow. simpl.
    rewrite list_lookup_imap, Hcell. simpl.
    specialize (Hdef r c Hr Hc). unfold keep.
    destruct (is_null (cellAt (originalPuzzle s) r c));
      by destruct (cellAt p r c).
Qed.

(** X12: what "Clear Inputs" does on any 9x9 puzzle of numbers and
    [null]s, also one that a [reset] has put out of step with the original
    puzzle: it returns; in the new puzzle every cell that is empty in the
    original puzzle is empty and every other cell has the value the
    current puzzle had; the log is that one snapshot, so that undo and
    redo do nothing afterwards. *)
Theorem clearUserInputs_cells (s : Session) (p : Grid) :
  grid9 (originalPuzzle s) → puzzle s = Some p → tidy p →
  ∃ s' q,
    clearUserInputs s = Ret s' ∧ puzzle s' = Some q ∧ history s' = [q] ∧
    historyIndex s' = 0 ∧ grid9 q ∧
    (∀ r c, r < 9 → c < 9 →
       cellAt q r c =
         if is_null (cellAt (originalPuzzle s) r c) then Null
         else cellAt p r c) ∧
    originalPuzzle s' = originalPuzzle s ∧ solution s' = solution s ∧
    selectedCell s' = selectedCell s ∧ undo s' = s' ∧ redo s' = s'.
Proof.
  intros Horig Hp Htidy.
  destruct (clearUserInputs_returns s p Horig Hp Htidy) as (q & -> & Hq & Hcells).
  eexists _, q. split; [done|]. simpl. by do 9 (split; [done|]).
Qed.

Lemma tidy_check (g : Grid) :
  grid9 g → Forall (λ p, cellAt g p.1 p.2 ≠ Undefined) positions → tidy g.
Proof.
  intros Hg Hall. split; [done|]. intros r c Hr Hc.
  rewrite list.Forall_forall in Hall.
  apply (Hall (r, c)). by apply elem_of_positions.
Qed.

Lemma afterReset_puzzle_tidy :
  ∃ p, puzzle afterReset.1 = Some p ∧ tidy p.
Proof.
  destruct (puzzle afterReset.1) as [p|] eqn:Hp; [|by vm_compute in Hp].
  exists p. split; [done|]. vm_compute in Hp. simplify_eq.
  apply tidy_check; by apply (bool_decide_unpack _); vm_compute.
Qed.

Lemma clearUserInputs_cells_witness :
  ∃ p,
    grid9 (originalPuzzle afterReset.1) ∧ puzzle afterReset.1 = Some p ∧
    tidy p ∧
    ∃ s' q,
      clearUserInputs afterReset.1 = Ret s' ∧ puzzle s' = Some q ∧
      history s' = [q] ∧ historyIndex s' = 0 ∧ grid9 q ∧
      (∀ r c, r < 9 → c < 9 →
         cellAt q r c =
           if is_null (cellAt (originalPuzzle afterReset.1) r c) then Null
           else cellAt p r c) ∧
      originalPuzzle s' = originalPuzzle afterReset.1 ∧
      solution s' = solution afterReset.1 ∧
      selectedCell s' = selectedCell afterReset.1 ∧
      undo s' = s' ∧ redo s' = s'.
Proof.
  destruct afterReset_puzzle_tidy as (p & Hp & Htidy).
  assert (grid9 (originalPuzzle afterReset.1)) as Hg
    by (by apply (bool_decide_unpack _); vm_compute).
  exists p. split; [exact Hg|]. split; [exact Hp|]. split; [exact Htidy|].
  exact (clearUserInputs_cells afterReset.1 p Hg Hp Htidy).
Defined.

(** ** Checking the solution *)

Lemma everyIndexed_spec {A} (isHole : A → bool) (f : nat → A → outcome bool)
    (P : nat → A → Prop) i l :
  (∀ k x, l !! k = Some x → isHole x = false →
     ∃ b, f (i + k) x = Ret b ∧ (b = true ↔ P (i + k) x)) →
  ∃ b, everyIndexed isHole f i l = Ret b ∧
    (b = true ↔ ∀ k x, l !! k = Some x → isHole x = false → P (i + k) x).
Proof.
  revert i. induction l as [|x l IH]; intros i Hf.
  { exists true. split; [done|]. split; [|done]. by intros _ k y. }
  assert (∀ k y, l !! k = Some y → isHole y = false →
            ∃ b, f (S i + k) y = Ret b ∧ (b = true ↔ P (S i + k) y)) as Hrest.
  { intros k y Hy Hh. replace (S i + k) with (i + S k) by lia. by apply Hf. }
  destruct (IH (S i) Hrest) as (b' & Hrun & Hb').
  assert ((∀ k y, (x :: l) !! k = Some y → isHole y = false → P (i + k) y) ↔
          (isHole x = false → P i x) ∧
          (∀ k y, l !! k = Some y → isHole y = false → P (S i + k) y)) as Hcons.
  { split.
    - intros Hall. split.
      + intros Hh. specialize (Hall 0 x eq_refl Hh).
        by rewrite Nat.add_0_r in Hall.
      + intros k y Hy Hh. replace (S i + k) with (i + S k) by lia.
        by apply Hall.
    - intros [Hx Hl] [|k] y Hy Hh; simpl in Hy.
      + simplify_eq. rewrite Nat.add_0_r. by apply Hx.
      + replace (i + S k) with (S i + k) by lia. by apply Hl. }
  simpl. destruct (isHole x) eqn:Hh.
  { exists b'. split; [done|]. rewrite Hcons, <-Hb'.
    split; [intros ?; split; [congruence|done]|by intros [_ ?]]. }
  destruct (Hf 0 x eq_refl Hh) as (b & Hb & HP).
  rewrite Nat.add_0_r in Hb, HP. rewrite Hb, bind_Ret.
  destruct b.
  - exists b'. split; [done|]. rewrite Hcons, <-Hb'.
    split; [intros ?; split; [intros _; by apply HP|done]|by intros [_ ?]].
  - exists false. split; [done|]. rewrite Hcons.
    split; [done|]. intros [Hx _]. by apply HP, Hx.
Qed.

Lemma checkSolution_spec (s : Session) (p : Grid) :
  grid9 (solution s) → puzzle s = Some p → tidy p →
  ∃ b, checkSolution s = Ret b ∧
    (b = true ↔
     ∀ r c, r < 9 → c < 9 → cellAt p r c = cellAt (solution s) r c).
Proof.
  intros Hsol Hp Htidy. unfold checkSolution. rewrite Hp.
  pose proof Htidy as [[Hlen Hrows] Hdef].
  match goal with |- context [everyIndexed ?h ?f 0 p] =>
    destruct (everyIndexed_spec h f
      (λ ri row, ∀ ci c, row !! ci = Some c → bool_decide (c = Hole) = false →
         c = cellAt (solution s) ri ci) 0 p) as (b & -> & Hb)
  end.
  { intros ri row Hrow _. simpl.
    apply lookup_lt_Some in Hrow as Hri.
    apply (everyIndexed_spec _ _ (λ ci c, c = cellAt (solution s) ri ci)).
    intros ci c Hc Hh. simpl.
    rewrite getCell_grid9, bind_Ret by (done || lia).
    eexists. split; [done|]. by rewrite bool_decide_eq_true. }
  exists b. split; [done|]. rewrite Hb. simpl. split.
  - intros Hall r c Hr Hc.
    destruct (tidy_lookup p r c Htidy Hr Hc) as (row & Hrow & Hcell & Hhole).
    apply (Hall r row Hrow eq_refl c _ Hcell). by apply bool_decide_eq_false.
  - intros Hall ri row Hrow _ ci c Hc Hh.
    apply lookup_lt_Some in Hrow as Hri.
    assert (ci < 9) as Hci.
    { apply lookup_lt_Some in Hc. eapply Forall_lookup_1 in Hrows; [|done].
      simpl in Hrows. lia. }
    destruct (tidy_lookup p ri ci Htidy) as (row' & Hrow' & Hcell & _);
      [lia|done|].
    rewrite <-Hall by lia. by simplify_eq.
Qed.

(** X13: on a 9x9 puzzle of numbers and [null]s, [checkSolution] returns,
    and it reports success exactly when every one of the 81 cells holds
    the value of the solution; an empty cell counts as wrong. *)
Theorem checkSolution_iff (s : Session) (p : Grid) :
  grid9 (solution s) → fullGrid (solution s) →
  puzzle s = Some p → tidy p →
  ∃ b, checkSolution s = Ret b ∧
    (b = true ↔
     ∀ r c, r < 9 → c < 9 → cellAt p r c = cellAt (solution s) r c) ∧
    ((∃ r c, r < 9 ∧ c < 9 ∧ cellAt p r c = Null) → b = false).
Proof.
  intros Hsol Hfull Hp Htidy.
  destruct (checkSolution_spec s p Hsol Hp Htidy) as (b & Hrun & Hb).
  exists b. split; [done|]. split; [done|].
  intros (r & c & Hr & Hc & Hnull). destruct b; [|done].
  destruct Hb as [Hall _]. specialize (Hall eq_refl r c Hr Hc).
  destruct (Hfull r c Hr Hc) as (n & Hn & _). congruence.
Qed.

Lemma checkSolution_iff_witness :
  ∃ p,
    grid9 (solution threeMoves) ∧ fullGrid (solution threeMoves) ∧
    puzzle threeMoves = Some p ∧ tidy p ∧
    ∃ b, checkSolution threeMoves = Ret b ∧
      (b = true ↔
       ∀ r c, r < 9 → c < 9 →
         cellAt p r c = cellAt (solution threeMoves) r c) ∧
      ((∃ r c, r < 9 ∧ c < 9 ∧ cellAt p r c = Null) → b = false).
Proof.
  destruct (puzzle threeMoves) as [p|] eqn:Hp; [|by vm_compute in Hp].
  assert (grid9 (solution threeMoves)) as Hg
    by (by apply (bool_decide_unpack _); vm_compute).
  assert (fullGrid (solution threeMoves)) as Hfull.
  { apply fullGridCheck_sound. by apply (bool_decide_unpack _); vm_compute. }
  assert (tidy p) as Htidy.
  { vm_compute in Hp. simplify_eq.
    apply tidy_check; by apply (bool_decide_unpack _); vm_compute. }
  exists p. split; [exact Hg|]. split; [exact Hfull|]. split; [done|].
  split; [exact Htidy|].
  exact (checkSolution_iff threeMoves p Hg Hfull Hp Htidy).
Defined.

Lemma nulls_pos (g : Grid) :
  0 < nulls g → ∃ r c, r < 9 ∧ c < 9 ∧ cellAt g r c = Null.
Proof.
  unfold nulls. intros Hpos.
  destruct (filter _ positions) as [|[r c] l] eqn:E; [simpl in Hpos; lia|].
  assert ((r, c) ∈ filter (λ p, cellAt g p.1 p.2 = Null) positions) as Hin.
  { rewrite E. by left. }
  apply list_elem_of_filter in Hin as [Hnull Hin].
  apply elem_of_positions in Hin. exists r, c. by destruct Hin.
Qed.

(** X14: a game that has just started is never reported as solved:
    [checkSolution] on the session of the first render returns [false]. *)
Theorem checkSolution_new_game `{RandomSource R} fuel (rng : R) s rng' :
  shuffle_permutes → random9_in_range →
  startSession fuel rng = Ret (s, rng') →
  checkSolution s = Ret false.
Proof.
  intros Hshuffle Hrange Hstart.
  destruct (startSession_fresh fuel rng s rng' Hshuffle Hrange Hstart)
    as (sol & orig & -> & Hg & Hfull & _ & Htidy & Hn & _).
  destruct (checkSolution_spec (newSession sol orig) orig)
    as (b & Hrun & Hb); [done|by simpl; rewrite spread_tidy|done|].
  destruct b; [|done]. destruct Hb as [Hall _].
  destruct (nulls_pos orig) as (r & c & Hr & Hc & Hnull); [lia|].
  specialize (Hall eq_refl r c Hr Hc). simpl in Hall.
  destruct (Hfull r c Hr Hc) as (n & Hcell & _). congruence.
Qed.

Lemma checkSolution_new_game_witness :
  @shuffle_permutes (nat * bool) counter_source ∧
  @random9_in_range (nat * bool) counter_source ∧
  startSession 100 counter0 = Ret (started.1, started.2) ∧
  checkSolution started.1 = Ret false.
Proof.
  split; [exact counter_shuffle_permutes|].
  split; [exact counter_in_range|]. split; [exact started_eq|].
  exact (checkSolution_new_game 100 counter0 started.1 started.2
           counter_shuffle_permutes counter_in_range started_eq).
Defined.

(** ** Runs of events from the board *)

Lemma perform_frame (s : Session) e :
  originalPuzzle (perform s e) = originalPuzzle s ∧
  solution (perform s e) = solution s.
Proof.
  destruct e as [row col|num| | |]; simpl.
  - destruct (handleCellClick row col s) as [s'| |] eqn:E; simpl; try done.
    by apply handleCellClick_log in E as (-> & -> & _).
  - destruct (handleNumberClick num s) as [s'| |] eqn:E; simpl; try done.
    by apply handleNumberClick_cases in E as [->|(? & ? & ? & ? & _ & _ & _ & _ & ->)].
  - unfold undo. by destruct (decide _).
  - unfold redo. by destruct (decide _).
  - unfold clearUserInputs. destruct (puzzle s); simpl; [|done].
    by destruct (mapIndexed _ _ _).
Qed.

Lemma selectionEditable_perform (s : Session) e :
  selectionEditable s → selectionEditable (perform s e).
Proof.
  intros Hsel row col. destruct (perform_frame s e) as [-> _].
  destruct e as [row0 col0|num| | |]; simpl.
  - unfold handleCellClick.
    destruct (getCellZ (originalPuzzle s) row0 col0) as [c| |] eqn:E; simpl;
      try apply Hsel.
    destruct (is_null c) eqn:Hc; simpl; [|apply Hsel].
    intros ?; simplify_eq. by apply is_null_true in Hc as ->.
  - destruct (handleNumberClick num s) as [s'| |] eqn:E; simpl; try apply Hsel.
    apply handleNumberClick_cases in E as [->|(? & ? & ? & ? & _ & _ & _ & _ & ->)];
      [apply Hsel|done].
  - unfold undo. destruct (decide _); apply Hsel.
  - unfold redo. destruct (decide _); apply Hsel.
  - unfold clearUserInputs. destruct (puzzle s); simpl; [|apply Hsel].
    destruct (mapIndexed _ _ _); simpl; apply Hsel.
Qed.

Lemma handle_returns (s : Session) e :
  sessionOk s → selectionEditable s → fromBoard e →
  handle e s = Ret (perform s e).
Proof.
  intros Hok Hsel He.
  destruct (sessionOk_puzzle s Hok) as (p & Hp & Hsnap).
  pose proof Hok as (_ & _ & [Horig _] & _).
  destruct e as [row col|num| | |]; simpl; try done.
  - destruct He as [Hrow Hcol]. unfold handleCellClick.
    rewrite (getCellZ_grid9 _ row col Horig Hrow), bind_Ret.
    by destruct (is_null _).
  - unfold handleNumberClick.
    destruct (selectedCell s) as [[row col]|] eqn:Hs; [|done].
    rewrite (Hsel row col Hs), bind_Ret. cbn [is_null]. rewrite Hp, list_fmap_id.
    destruct (setCellZ_grid9 p row col (Num num)) as [snap ->];
      [apply Hsnap| |done].
    eapply getCellZ_row_range; [done|]. by apply Hsel.
  - rewrite (clearUserInputs_spec s p); [done|apply Hok|done|done].
Qed.

(** X15: no event from the board makes a handler throw: from the session
    of the first render, every run of presses on the 81 cells, the nine
    keys and the undo, redo and clear buttons goes through, each handler
    returning normally. *)
Theorem board_events_never_throw `{RandomSource R} fuel (rng : R) s rng'
    (events : list event) :
  shuffle_permutes → random9_in_range →
  startSession fuel rng = Ret (s, rng') →
  Forall fromBoard events →
  runEvents s events = Ret (performAll s events).
Proof.
  intros Hshuffle Hrange Hstart Hevents.
  assert (sessionOk s ∧ selectionEditable s) as Hinv.
  { destruct (startSession_fresh fuel rng s rng' Hshuffle Hrange Hstart)
      as (sol & orig & -> & Hg & Hfull & _ & Htidy & _ & Hkept).
    split; [by apply sessionOk_newSession|]. by intros row col. }
  clear Hstart. revert s Hinv.
  induction Hevents as [|e events He Hevents IH]; intros s [Hok Hsel]; [done|].
  simpl. rewrite (handle_returns s e Hok Hsel He), bind_Ret.
  apply IH. split; [by apply sessionOk_perform|by apply selectionEditable_perform].
Qed.

Lemma fromBoard_sample :
  Forall fromBoard
    [SelectCell 0 0; EnterValue 5; SelectCell 8 8; EnterValue 9; Undo;
     SelectCell 4 4; EnterValue 1; ClearUserInputs; Redo; Undo].
Proof.
  assert (∀ n, (1 ≤ n ≤ 9)%Z → n ∈ keyValues) as Hkey
    by (intros n Hn; by apply elem_of_oneToNine).
  repeat constructor; try lia; apply Hkey; lia.
Qed.

Lemma board_events_never_throw_witness :
  @shuffle_permutes (nat * bool) counter_source ∧
  @random9_in_range (nat * bool) counter_source ∧
  startSession 100 counter0 = Ret (started.1, started.2) ∧
  Forall fromBoard
    [SelectCell 0 0; EnterValue 5; SelectCell 8 8; EnterValue 9; Undo;
     SelectCell 4 4; EnterValue 1; ClearUserInputs; Redo; Undo] ∧
  runEvents started.1
    [SelectCell 0 0; EnterValue 5; SelectCell 8 8; EnterValue 9; Undo;
     SelectCell 4 4; EnterValue 1; ClearUserInputs; Redo; Undo] =
  Ret (performAll started.1
    [SelectCell 0 0; EnterValue 5; SelectCell 8 8; EnterValue 9; Undo;
     SelectCell 4 4; EnterValue 1; ClearUserInputs; Redo; Undo]).
Proof.
  split; [exact counter_shuffle_permutes|].
  split; [exact counter_in_range|]. split; [exact started_eq|].
  split; [exact fromBoard_sample|].
  exact (board_events_never_throw 100 counter0 started.1 started.2 _
           counter_shuffle_permutes counter_in_range started_eq
           fromBoard_sample).
Defined.

Lemma selectionEditable_performAll events (s : Session) :
  selectionEditable s → selectionEditable (performAll s events).
Proof.
  revert s. induction events as [|e events IH]; intros s Hs; [done|].
  simpl. by apply IH, selectionEditable_perform.
Qed.

Lemma sessionOk_performAll events (s : Session) :
  sessionOk s → sessionOk (performAll s events).
Proof.
  revert s. induction events as [|e events IH]; intros s Hs; [done|].
  simpl. by apply IH, sessionOk_perform.
Qed.

(** X16: from the session of the first render, after any events at all
    (also clicks outside the board), a selected cell is always one of the
    81 cells and always an empty cell of the original puzzle: a given cell
    is never selected. *)
Theorem selection_is_editable `{RandomSource R} fuel (rng : R) s rng'
    (events : list event) (row col : Z) :
  shuffle_permutes → random9_in_range →
  startSession fuel rng = Ret (s, rng') →
  selectedCell (performAll s events) = Some (row, col) →
  (0 ≤ row < 9)%Z ∧ (0 ≤ col < 9)%Z ∧
  cellAt (originalPuzzle (performAll s events))
    (Z.to_nat row) (Z.to_nat col) = Null.
Proof.
  intros Hshuffle Hrange Hstart Hsel.
  destruct (startSession_fresh fuel rng s rng' Hshuffle Hrange Hstart)
    as (sol & orig & -> & Hg & Hfull & _ & Htidy & _ & Hkept).
  pose proof (sessionOk_performAll events _
    (sessionOk_newSession sol orig Hg Hfull Htidy Hkept))
    as (_ & _ & [Horig _] & _).
  assert (selectionEditable (newSession sol orig)) as Hinit
    by by intros ??.
  pose proof (selectionEditable_performAll events _ Hinit row col Hsel) as Hcell.
  pose proof (getCellZ_row_range _ _ _ _ Horig Hcell) as Hrow.
  rewrite getCellZ_grid9 in Hcell by done.
  destruct (decide (0 ≤ col)%Z) as [Hcol|]; [|by simplify_eq].
  assert (cellAt (originalPuzzle (performAll (newSession sol orig) events))
            (Z.to_nat row) (Z.to_nat col) = Null) as Hnull by by simplify_eq.
  split; [done|]. split; [|done]. split; [done|].
  pose proof (cellAt_Null_col _ (Z.to_nat row) _ Horig ltac:(lia) Hnull). lia.
Qed.

Lemma selection_is_editable_witness :
  @shuffle_permutes (nat * bool) counter_source ∧
  @random9_in_range (nat * bool) counter_source ∧
  startSession 100 counter0 = Ret (started.1, started.2) ∧
  selectedCell (performAll started.1
    [SelectCell 4 4; SelectCell 9 9; SelectCell 2 3; SelectCell 5 5]) =
    Some (2, 3)%Z ∧
  (0 ≤ 2 < 9)%Z ∧ (0 ≤ 3 < 9)%Z ∧
  cellAt (originalPuzzle (performAll started.1
    [SelectCell 4 4; SelectCell 9 9; SelectCell 2 3; SelectCell 5 5]))
    (Z.to_nat 2) (Z.to_nat 3) = Null.
Proof.
  assert (selectedCell (performAll started.1
    [SelectCell 4 4; SelectCell 9 9; SelectCell 2 3; SelectCell 5 5]) =
    Some (2, 3)%Z) as Hsel by (by vm_compute).
  split; [exact counter_shuffle_permutes|].
  split; [exact counter_in_range|]. split; [exact started_eq|].
  split; [exact Hsel|].
  exact (selection_is_editable 100 counter0 started.1 started.2 _ 2 3
           counter_shuffle_permutes counter_in_range started_eq Hsel).
Defined.

Lemma cellsOk_enter (p snap : Grid) row col num :
  tidy p → cellsOk p → (0 ≤ row < 9)%Z → (1 ≤ num ≤ 9)%Z →
  setCellZ p row col (Num num) = Ret snap → cellsOk snap.
Proof.
  intros Htidy Hok Hrow Hnum Hset r c Hr Hc.
  destruct (decide (Z.of_nat r = row ∧ Z.of_nat c = col)) as [[<- <-]|Hne].
  - right. exists num. split; [|done].
    rewrite setCellZ_nat in Hset by lia. rewrite !Nat2Z.id in Hset.
    destruct (setCell_grid9 p r c (Num num)) as (g' & Hg' & _ & Hnew & _);
      [apply Htidy|done..|].
    rewrite Hg' in Hset. by simplify_eq.
  - rewrite (cellAt_setCellZ_ne _ _ _ _ _ _ _ Hset Hne). by apply Hok.
Qed.

Lemma cellsOk_perform (s : Session) e :
  sessionOk s → fromBoard e →
  cellsOk (originalPuzzle s) → Forall cellsOk (history s) →
  Forall cellsOk (history (perform s e)).
Proof.
  intros Hok He Horig Hlog.
  destruct (sessionOk_puzzle s Hok) as (p & Hp & Hsnap).
  assert (cellsOk p) as Hcp.
  { destruct Hok as (_ & _ & _ & _ & _ & _ & _ & p' & Hp' & Hidx).
    simplify_eq. by eapply Forall_lookup_1 in Hlog. }
  destruct e as [row col|num| | |]; simpl in *.
  - destruct (handleCellClick row col s) as [s'| |] eqn:E; simpl; try done.
    by apply handleCellClick_log in E as (_ & _ & _ & -> & _).
  - destruct (handleNumberClick num s) as [s'| |] eqn:E; simpl; try done.
    apply handleNumberClick_cases in E
      as [->|(row & col & p0 & snap & _ & Hcell & Hp0 & Hset & ->)]; [done|].
    simpl. apply Forall_app_2; [by apply Forall_take|]. apply Forall_singleton.
    simplify_eq. eapply (cellsOk_enter p snap row col num); try done.
    + apply Hsnap.
    + eapply getCellZ_row_range; [|done]. apply Hok.
    + by apply elem_of_oneToNine.
  - unfold undo. by destruct (decide _).
  - unfold redo. by destruct (decide _).
  - rewrite (clearUserInputs_spec s p) by (done || apply Hok). simpl.
    by apply Forall_singleton.
Qed.

Lemma started_session `{RandomSource R} fuel (rng : R) s rng' events :
  shuffle_permutes → random9_in_range →
  startSession fuel rng = Ret (s, rng') →
  sessionOk (performAll s events) ∧ selectionEditable (performAll s events).
Proof.
  intros Hshuffle Hrange Hstart.
  destruct (startSession_fresh fuel rng s rng' Hshuffle Hrange Hstart)
    as (sol & orig & -> & Hg & Hfull & _ & Htidy & _ & Hkept).
  split.
  - by apply sessionOk_performAll, sessionOk_newSession.
  - apply selectionEditable_performAll. by intros ??.
Qed.

Lemma cellsOk_started `{RandomSource R} fuel (rng : R) s rng' events :
  shuffle_permutes → random9_in_range →
  startSession fuel rng = Ret (s, rng') →
  Forall fromBoard events →
  Forall cellsOk (history (performAll s events)).
Proof.
  intros Hshuffle Hrange Hstart Hevents.
  destruct (startSession_fresh fuel rng s rng' Hshuffle Hrange Hstart)
    as (sol & orig & -> & Hg & Hfull & _ & Htidy & _ & Hkept).
  assert (cellsOk orig) as Horig.
  { intros r c Hr Hc. destruct (decide (cellAt orig r c = Null)) as [|Hne];
      [by left|].
    right. rewrite (Hkept r c Hne). by apply Hfull. }
  pose proof (sessionOk_newSession sol orig Hg Hfull Htidy Hkept) as Hok.
  assert (Forall cellsOk (history (newSession sol orig))) as Hlog
    by by apply Forall_singleton.
  assert (cellsOk (originalPuzzle (newSession sol orig))) as Horig' by done.
  clear Hstart. revert Hok Hlog Horig'.
  generalize (newSession sol orig). clear Horig.
  induction Hevents as [|e events He Hevents IH]; intros s Hok Hlog Horig;
    [done|].
  simpl. apply IH.
  - by apply sessionOk_perform.
  - by apply cellsOk_perform.
  - by destruct (perform_frame s e) as [-> _].
Qed.

(** X17: with the nine keys of the keypad as the only way to enter a
    number, every snapshot of the log, and so the current puzzle, only
    holds empty cells and numbers 1..9, after any run of events from the
    board. *)
Theorem board_cells_are_digits `{RandomSource R} fuel (rng : R) s rng'
    (events : list event) :
  shuffle_permutes → random9_in_range →
  startSession fuel rng = Ret (s, rng') →
  Forall fromBoard events →
  Forall cellsOk (history (performAll s events)) ∧
  ∃ p, puzzle (performAll s events) = Some p ∧ cellsOk p.
Proof.
  intros Hshuffle Hrange Hstart Hevents.
  pose proof (cellsOk_started fuel rng s rng' events Hshuffle Hrange Hstart
                Hevents) as Hlog.
  destruct (started_session fuel rng s rng' events Hshuffle Hrange Hstart)
    as [Hok _].
  split; [done|].
  destruct Hok as (_ & _ & _ & _ & _ & _ & _ & p & Hp & Hidx).
  exists p. split; [done|]. by eapply Forall_lookup_1 in Hlog.
Qed.

Lemma board_cells_are_digits_witness :
  @shuffle_permutes (nat * bool) counter_source ∧
  @random9_in_range (nat * bool) counter_source ∧
  startSession 100 counter0 = Ret (started.1, started.2) ∧
  Forall fromBoard
    [SelectCell 0 0; EnterValue 5; SelectCell 8 8; EnterValue 9; Undo;
     SelectCell 4 4; EnterValue 1; ClearUserInputs; Redo; Undo] ∧
  Forall cellsOk (history (performAll started.1
    [SelectCell 0 0; EnterValue 5; SelectCell 8 8; EnterValue 9; Undo;
     SelectCell 4 4; EnterValue 1; ClearUserInputs; Redo; Undo])) ∧
  ∃ p, puzzle (performAll started.1
    [SelectCell 0 0; EnterValue 5; SelectCell 8 8; EnterValue 9; Undo;
     SelectCell 4 4; EnterValue 1; ClearUserInputs; Redo; Undo]) = Some p ∧
    cellsOk p.
Proof.
  split; [exact counter_shuffle_permutes|].
  split; [exact counter_in_range|]. split; [exact started_eq|].
  split; [exact fromBoard_sample|].
  exact (board_cells_are_digits 100 counter0 started.1 started.2 _
           counter_shuffle_permutes counter_in_range started_eq
           fromBoard_sample).
Defined.

(** ** The rendered board *)

Lemma renderBoard_spec (s : Session) (p : Grid) :
  tidy (originalPuzzle s) → tidy p → puzzle s = Some p →
  renderBoard s = Ret (imap (λ r row, imap (viewOf s r) row) p).
Proof.
  intros [Horig _] [[Hlen Hrows] _] Hp. unfold renderBoard. rewrite Hp.
  apply mapIndexed_0. intros ri row Hrow. apply mapIndexed_0.
  intros ci c Hc. apply lookup_lt_Some in Hrow.
  destruct c; try done; unfold renderCell;
    by rewrite getCell_grid9, !bind_Ret by (done || lia).
Qed.

Lemma renderBoard_lookup (s : Session) (p : Grid) :
  tidy (originalPuzzle s) → tidy p → puzzle s = Some p →
  ∃ board, renderBoard s = Ret board ∧
    length board = 9 ∧ Forall (λ row, length row = 9) board ∧
    ∀ r c, r < 9 → c < 9 →
      viewAt board r c = viewOf s r c (cellAt p r c) ∧
      cellAt p r c ≠ Hole.
Proof.
  intros Horig Htidy Hp. eexists. split; [by apply renderBoard_spec|].
  pose proof Htidy as [[Hlen Hrows] _].
  split; [by rewrite length_imap|]. split.
  - apply list.Forall_forall.
    intros row' (ri & row & -> & Hrow)%elem_of_lookup_imap.
    rewrite length_imap. by eapply Forall_lookup_1 in Hrows.
  - intros r c Hr Hc.
    destruct (tidy_lookup p r c Htidy Hr Hc) as (row & Hrow & Hcell & Hhole).
    split; [|done]. unfold viewAt.
    rewrite list_lookup_imap, Hrow. simpl. rewrite list_lookup_imap, Hcell.
    simpl. unfold viewOf. by destruct (cellAt p r c).
Qed.

Lemma selectedAt_true (s : Session) r c :
  selectedAt s r c = true ↔ selectedCell s = Some (Z.of_nat r, Z.of_nat c).
Proof.
  unfold selectedAt. destruct (selectedCell s) as [[r' c']|]; [|done].
  rewrite bool_decide_eq_true. split; [by intros [-> ->]|].
  intros ?; by simplify_eq.
Qed.

(** X18: what the board shows, after any events at all from the session of
    the first render: rendering returns a board of 9 rows of 9 cells; the
    cell at (r, c) raises the click on (r, c), is styled as pre-filled
    exactly when the original puzzle has a number there, is highlighted
    exactly when it is the selected cell, and a highlighted cell is never
    a pre-filled one. *)
Theorem renderBoard_views `{RandomSource R} fuel (rng : R) s rng'
    (events : list event) :
  shuffle_permutes → random9_in_range →
  startSession fuel rng = Ret (s, rng') →
  ∃ board, renderBoard (performAll s events) = Ret board ∧
    length board = 9 ∧ Forall (λ row, length row = 9) board ∧
    ∀ r c, r < 9 → c < 9 →
      ∃ v, viewAt board r c = Some v ∧
        onPress v = SelectCell (Z.of_nat r) (Z.of_nat c) ∧
        (isPreFilled v = true ↔
           cellAt (originalPuzzle (performAll s events)) r c ≠ Null) ∧
        (isSelected v = true ↔
           selectedCell (performAll s events) = Some (Z.of_nat r, Z.of_nat c)) ∧
        (isSelected v = true → isPreFilled v = false).
Proof.
  intros Hshuffle Hrange Hstart.
  destruct (started_session fuel rng s rng' events Hshuffle Hrange Hstart)
    as [Hok Hsel].
  set (s' := performAll s events) in *.
  destruct (sessionOk_puzzle s' Hok) as (p & Hp & Hsnap).
  pose proof Hok as (_ & _ & Horig & _).
  destruct (renderBoard_lookup s' p Horig (proj1 Hsnap) Hp)
    as (board & Hboard & Hlen & Hrows & Hviews).
  exists board. do 3 (split; [done|]). intros r c Hr Hc.
  destruct (Hviews r c Hr Hc) as [Hv Hhole]. unfold viewOf in Hv.
  assert (∃ t, viewAt board r c =
    Some {| text := t;
            isPreFilled := negb (is_null (cellAt (originalPuzzle s') r c));
            isSelected := selectedAt s' r c;
            onPress := SelectCell (Z.of_nat r) (Z.of_nat c) |}) as [t Hv'].
  { destruct (cellAt p r c); [done|by eexists..]. }
  eexists. split; [exact Hv'|]. cbn.
  split; [done|]. split; [|split].
  - rewrite negb_true_iff. split.
    + by intros ?%is_null_false.
    + intros Hne. by destruct (cellAt (originalPuzzle s') r c).
  - apply selectedAt_true.
  - intros Hs%selectedAt_true. apply Hsel in Hs.
    rewrite getCellZ_grid9 in Hs by (apply Horig || lia).
    rewrite decide_True, !Nat2Z.id in Hs by lia.
    assert (cellAt (originalPuzzle s') r c = Null) as -> by congruence.
    done.
Qed.

Lemma renderBoard_views_witness :
  @shuffle_permutes (nat * bool) counter_source ∧
  @random9_in_range (nat * bool) counter_source ∧
  startSession 100 counter0 = Ret (started.1, started.2) ∧
  ∃ board,
    renderBoard (performAll started.1
      [SelectCell 0 0; EnterValue 5; SelectCell 2 3]) = Ret board ∧
    length board = 9 ∧ Forall (λ row, length row = 9) board ∧
    ∀ r c, r < 9 → c < 9 →
      ∃ v, viewAt board r c = Some v ∧
        onPress v = SelectCell (Z.of_nat r) (Z.of_nat c) ∧
        (isPreFilled v = true ↔
           cellAt (originalPuzzle (performAll started.1
             [SelectCell 0 0; EnterValue 5; SelectCell 2 3])) r c ≠ Null) ∧
        (isSelected v = true ↔
           selectedCell (performAll started.1
             [SelectCell 0 0; EnterValue 5; SelectCell 2 3]) =
             Some (Z.of_nat r, Z.of_nat c)) ∧
        (isSelected v = true → isPreFilled v = false).
Proof.
  split; [exact counter_shuffle_permutes|].
  split; [exact counter_in_range|]. split; [exact started_eq|].
  exact (renderBoard_views 100 counter0 started.1 started.2
           [SelectCell 0 0; EnterValue 5; SelectCell 2 3]
           counter_shuffle_permutes counter_in_range started_eq).
Defined.

(** X19: the text of a cell. With the keypad as the only way to enter a
    number, a cell of the board shows the number that the puzzle holds
    there, and the empty text exactly where the puzzle holds [null]. *)
Theorem renderBoard_text `{RandomSource R} fuel (rng : R) s rng'
    (events : list event) :
  shuffle_permutes → random9_in_range →
  startSession fuel rng = Ret (s, rng') →
  Forall fromBoard events →
  ∃ p board, puzzle (performAll s events) = Some p ∧
    renderBoard (performAll s events) = Ret board ∧
    ∀ r c, r < 9 → c < 9 →
      ∃ v, viewAt board r c = Some v ∧
        (text v = None ↔ cellAt p r c = Null) ∧
        (∀ n, text v = Some n ↔ cellAt p r c = Num n).
Proof.
  intros Hshuffle Hrange Hstart Hevents.
  destruct (started_session fuel rng s rng' events Hshuffle Hrange Hstart)
    as [Hok _].
  pose proof (cellsOk_started fuel rng s rng' events Hshuffle Hrange Hstart
                Hevents) as Hcells.
  set (s' := performAll s events) in *.
  destruct (sessionOk_puzzle s' Hok) as (p & Hp & Hsnap).
  assert (cellsOk p) as Hcp.
  { destruct Hok as (_ & _ & _ & _ & _ & _ & _ & p' & Hp' & Hidx).
    simplify_eq. by eapply Forall_lookup_1 in Hcells. }
  pose proof Hok as (_ & _ & Horig & _).
  destruct (renderBoard_lookup s' p Horig (proj1 Hsnap) Hp)
    as (board & Hboard & _ & _ & Hviews).
  exists p, board. do 2 (split; [done|]). intros r c Hr Hc.
  destruct (Hviews r c Hr Hc) as [Hv _]. unfold viewOf in Hv.
  destruct (Hcp r c Hr Hc) as [Hnull|(n & Hn & Hrange')].
  - rewrite Hnull in *. eexists. split; [done|]. cbn. split; [done|].
    intros n. split; intros; by simplify_eq.
  - rewrite Hn in *. eexists. split; [done|]. cbn.
    rewrite decide_False by lia. split; [done|].
    intros m. split; intros; by simplify_eq.
Qed.

Lemma renderBoard_text_witness :
  @shuffle_permutes (nat * bool) counter_source ∧
  @random9_in_range (nat * bool) counter_source ∧
  startSession 100 counter0 = Ret (started.1, started.2) ∧
  Forall fromBoard
    [SelectCell 0 0; EnterValue 5; SelectCell 8 8; EnterValue 9; Undo;
     SelectCell 4 4; EnterValue 1; ClearUserInputs; Redo; Undo] ∧
  ∃ p board,
    puzzle (performAll started.1
      [SelectCell 0 0; EnterValue 5; SelectCell 8 8; EnterValue 9; Undo;
       SelectCell 4 4; EnterValue 1; ClearUserInputs; Redo; Undo]) = Some p ∧
    renderBoard (performAll started.1
      [SelectCell 0 0; EnterValue 5; SelectCell 8 8; EnterValue 9; Undo;
       SelectCell 4 4; EnterValue 1; ClearUserInputs; Redo; Undo]) = Ret board ∧
    ∀ r c, r < 9 → c < 9 →
      ∃ v, viewAt board r c = Some v ∧
        (text v = None ↔ cellAt p r c = Null) ∧
        (∀ n, text v = Some n ↔ cellAt p r c = Num n).
Proof.
  split; [exact counter_shuffle_permutes|].
  split; [exact counter_in_range|]. split; [exact started_eq|].
  split; [exact fromBoard_sample|].
  exact (renderBoard_text 100 counter0 started.1 started.2 _
           counter_shuffle_permutes counter_in_range started_eq
           fromBoard_sample).
Defined.

Lemma elem_of_renderNumberKeys e :
  e ∈ renderNumberKeys ↔ ∃ num, e = EnterValue num ∧ num ∈ keyValues.
Proof.
  unfold renderNumberKeys, keyValues. rewrite list_elem_of_fmap. split.
  - intros (k & -> & Hk). eexists. split; [done|].
    apply list_elem_of_fmap. by exists k.
  - intros (num & -> & (k & -> & Hk)%list_elem_of_fmap). by exists k.
Qed.

(** X20: the events that the screen can raise. After any events from the
    session of the first render, the cells of the rendered board, the nine
    keys and the three buttons raise exactly the clicks on the 81 cells,
    the numbers 1..9 and undo, redo and clear. *)
Theorem offered_events `{RandomSource R} fuel (rng : R) s rng'
    (events : list event) :
  shuffle_permutes → random9_in_range →
  startSession fuel rng = Ret (s, rng') →
  ∃ board, renderBoard (performAll s events) = Ret board ∧
    ∀ e, e ∈ offered board ↔ fromBoard e.
Proof.
  intros Hshuffle Hrange Hstart.
  destruct (started_session fuel rng s rng' events Hshuffle Hrange Hstart)
    as [Hok _].
  set (s' := performAll s events) in *.
  destruct (sessionOk_puzzle s' Hok) as (p & Hp & Hsnap).
  pose proof Hok as (_ & _ & Horig & _).
  pose proof (renderBoard_spec s' p Horig (proj1 Hsnap) Hp) as Hboard.
  eexists. split; [done|]. intros e. unfold offered.
  rewrite !elem_of_app, elem_of_renderNumberKeys, list_elem_of_fmap.
  pose proof Hsnap as [[[Hlen Hrows] Hdef] _].
  split.
  - intros [(v & -> & Hv)|[(num & -> & Hnum)|Hbutton]].
    + apply list_elem_of_omap in Hv as (ov & Hov & Hid).
      apply list_elem_of_join in Hov as (row' & Hov & Hrow').
      apply elem_of_lookup_imap in Hrow' as (ri & row & -> & Hrow).
      apply elem_of_lookup_imap in Hov as (ci & c & -> & Hc).
      assert (ri < 9) as Hri by (apply lookup_lt_Some in Hrow; lia).
      assert (ci < 9) as Hci.
      { eapply Forall_lookup_1 in Hrows; [|done].
        apply lookup_lt_Some in Hc. simpl in Hrows. lia. }
      unfold viewOf in Hid. destruct c; simplify_eq/=; lia.
    + done.
    + by repeat (apply elem_of_cons in Hbutton as [->|Hbutton]);
        try apply elem_of_nil in Hbutton.
  - destruct e as [row col|num| | |]; simpl.
    + intros [Hrow Hcol]. left.
      destruct (tidy_lookup p (Z.to_nat row) (Z.to_nat col) (proj1 Hsnap))
        as (rw & Hrw & Hcell & Hhole); [lia..|].
      set (c := cellAt p (Z.to_nat row) (Z.to_nat col)) in *.
      destruct (viewOf s' (Z.to_nat row) (Z.to_nat col) c) as [v|] eqn:Hv;
        [|by destruct c].
      exists v. split.
      * unfold viewOf in Hv. destruct c; simplify_eq/=; f_equal; lia.
      * apply list_elem_of_omap. exists (Some v). split; [|done].
        apply list_elem_of_join.
        exists (imap (viewOf s' (Z.to_nat row)) rw). split.
        -- apply elem_of_lookup_imap. by exists (Z.to_nat col), c.
        -- apply elem_of_lookup_imap. by exists (Z.to_nat row), rw.
    + intros Hnum. right. left. by exists num.
    + intros _. right. right. rewrite !elem_of_cons. by left.
    + intros _. right. right. rewrite !elem_of_cons. right. by left.
    + intros _. right. right. rewrite !elem_of_cons. right. right. by left.
Qed.

Lemma offered_events_witness :
  @shuffle_permutes (nat * bool) counter_source ∧
  @random9_in_range (nat * bool) counter_source ∧
  startSession 100 counter0 = Ret (started.1, started.2) ∧
  ∃ board,
    renderBoard (performAll started.1
      [SelectCell 0 0; EnterValue 5; Undo]) = Ret board ∧
    ∀ e, e ∈ offered board ↔ fromBoard e.
Proof.
  split; [exact counter_shuffle_permutes|].
  split; [exact counter_in_range|]. split; [exact started_eq|].
  exact (offered_events 100 counter0 started.1 started.2
           [SelectCell 0 0; EnterValue 5; Undo]
           counter_shuffle_permutes counter_in_range started_eq).
Defined.
